(** * yt-script-analyzer: the highlight core of [TensionHighlighter.tsx]

    A shallow embedding of [escapeHtml], [findTensionPhrases] and [analyzeText]
    (src/components/TensionHighlighter.tsx) and of [detectAbsolutismsNLP] and
    [detectInversionsNLP] (utils/nlpAnalysis), followed by the properties of
    the span resolver, the counts and the rendering.

    JavaScript strings are sequences of code units; they are modelled by
    [string], one [ascii] per code unit, so offsets count code units exactly
    as [String.prototype.substring] and [RegExp] indices do. *)

From Stdlib Require Import ZArith Ascii.
From stdpp Require Import base list strings gmap sorting.

Local Open Scope nat_scope.
Set Warnings "-clear-no-such-hyp".

(** ** JavaScript string built-ins used by the component *)

Module Js.

(** [s.substring(0, n)]; an index past the end is clamped. *)
Fixpoint substringTo (s : string) (n : nat) : string :=
  match n, s with
  | S n', String c s' => String c (substringTo s' n')
  | _, _ => EmptyString
  end.

(** [s.substring(n)]; an index past the end yields the empty string. *)
Fixpoint substringFrom (s : string) (n : nat) : string :=
  match n, s with
  | S n', String _ s' => substringFrom s' n'
  | _, _ => s
  end.

(** [s.replace(/c/g, rep)] for a pattern that is one literal character. *)
Fixpoint replaceAll (c : ascii) (rep : string) (s : string) : string :=
  match s with
  | EmptyString => EmptyString
  | String d s' =>
      if Ascii.eqb d c then rep +:+ replaceAll c rep s'
      else String d (replaceAll c rep s')
  end.

(** [c.toLowerCase()] on one code unit of the Latin-1 range. *)
Definition lowerChar (c : ascii) : ascii :=
  let n := nat_of_ascii c in
  if ((65 <=? n) && (n <=? 90)) || ((192 <=? n) && (n <=? 222) && negb (n =? 215))
  then ascii_of_nat (n + 32) else c.

Fixpoint toLowerCase (s : string) : string :=
  match s with
  | EmptyString => EmptyString
  | String c s' => String (lowerChar c) (toLowerCase s')
  end.

(** White space and line terminators removed by [trim]. *)
Definition isSpace (c : ascii) : bool :=
  let n := nat_of_ascii c in
  ((9 <=? n) && (n <=? 13)) || (n =? 32) || (n =? 160).

Fixpoint trimStart (s : string) : string :=
  match s with
  | EmptyString => EmptyString
  | String c s' => if isSpace c then trimStart s' else s
  end.

Fixpoint trimEnd (s : string) : string :=
  match s with
  | EmptyString => EmptyString
  | String c s' =>
      match trimEnd s' with
      | EmptyString => if isSpace c then EmptyString else String c EmptyString
      | t => String c t
      end
  end.

Definition trim (s : string) : string := trimEnd (trimStart s).

(** Truthiness of a string: the empty string is falsy. *)
Definition truthy (s : string) : bool :=
  match s with EmptyString => false | _ => true end.

Fixpoint startsWith (s p : string) : bool :=
  match p, s with
  | EmptyString, _ => true
  | String a p', String b s' => Ascii.eqb a b && startsWith s' p'
  | String _ _, EmptyString => false
  end.

(** [arr.includes(x)] on an array of strings. *)
Definition includes (arr : list string) (x : string) : bool :=
  existsb (String.eqb x) arr.

(** [arr.sort(cmp)]: the sort is stable, so it is the insertion of every
    element, from the last to the first, before the first element it does
    not compare greater than. *)
Section Sort.
Context {A : Type} (cmp : A -> A -> Z).

Fixpoint insertBy (x : A) (l : list A) : list A :=
  match l with
  | [] => [x]
  | y :: l' => if (cmp x y <=? 0)%Z then x :: l else y :: insertBy x l'
  end.

Definition sort (l : list A) : list A := foldr insertBy [] l.
End Sort.

End Js.

(** The double quote, for the attribute values of the markup. *)
Definition dq : string := String (ascii_of_nat 34) EmptyString.

(** ** Data model *)

Inductive Category := tension | absolutism | inversion.

(** An entry of the [highlights] array of [analyzeText]. *)
Module Highlight.
Record t := mk {
  text : string;
  start : nat;
  end_ : nat;
  type : Category;
  class : string
}.
End Highlight.

(** ** Span resolver of [analyzeText] *)

(** [(a, b) => a.start - b.start] *)
Definition byStartAsc (a b : Highlight.t) : Z :=
  (Z.of_nat (Highlight.start a) - Z.of_nat (Highlight.start b))%Z.

(** [(a, b) => b.start - a.start] *)
Definition byStartDesc (a b : Highlight.t) : Z :=
  (Z.of_nat (Highlight.start b) - Z.of_nat (Highlight.start a))%Z.

(** The predicate given to [filteredHighlights.some]. *)
Definition overlapsExisting (highlight existing : Highlight.t) : bool :=
  ((Highlight.start existing <=? Highlight.start highlight)
   && (Highlight.start highlight <? Highlight.end_ existing))
  || ((Highlight.start existing <? Highlight.end_ highlight)
      && (Highlight.end_ highlight <=? Highlight.end_ existing)).

Definition isOverlapping (highlight : Highlight.t)
    (filteredHighlights : list Highlight.t) : bool :=
  existsb (overlapsExisting highlight) filteredHighlights.

(** One turn of the [for (const highlight of highlights)] loop. *)
Definition keepStep (filteredHighlights : list Highlight.t)
    (highlight : Highlight.t) : list Highlight.t :=
  if isOverlapping highlight filteredHighlights then filteredHighlights
  else filteredHighlights ++ [highlight].

Definition removeOverlaps (highlights : list Highlight.t) : list Highlight.t :=
  fold_left keepStep highlights [].

(** The kept set of a run: sort ascending, then filter. *)
Definition keptHighlights (highlights : list Highlight.t) : list Highlight.t :=
  removeOverlaps (Js.sort byStartAsc highlights).

(** The overlap relation in the words of the specification. *)
Definition Overlaps (kept candidate : Highlight.t) : Prop :=
  (Highlight.start kept <= Highlight.start candidate
   /\ Highlight.start candidate < Highlight.end_ kept)
  \/ (Highlight.start kept < Highlight.end_ candidate
      /\ Highlight.end_ candidate <= Highlight.end_ kept).

(** The order of the first sort. *)
Definition startsAscend (a b : Highlight.t) : Prop :=
  Highlight.start a <= Highlight.start b.

(** A kept span ends where the next kept one starts, or before. *)
Definition endsBefore (a b : Highlight.t) : Prop :=
  Highlight.end_ a <= Highlight.start b.

(** A span given by its two offsets, for examples. *)
Definition spanOf (s e : nat) : Highlight.t :=
  Highlight.mk "" s e tension "highlight-tension".

(** ** Outcomes of a JavaScript computation

    A call returns, throws, or is still running when the fuel given to its
    [while] loops is used up. *)

Inductive Outcome (A : Type) : Type :=
| Returned (a : A)
| Thrown (error : string)
| OutOfFuel.

Arguments Returned {A} a.
Arguments Thrown {A} error.
Arguments OutOfFuel {A}.

#[export] Instance Outcome_bind : MBind Outcome := fun A B k o =>
  match o with
  | Returned a => k a
  | Thrown e => Thrown e
  | OutOfFuel => OutOfFuel
  end.

(** [try { body } catch (error) { handler }] *)
Definition tryCatch {A : Type} (body : Outcome A) (handler : string -> Outcome A)
    : Outcome A :=
  match body with
  | Thrown e => handler e
  | _ => body
  end.

(** ** Regular expression objects

    A [RegExp] object is its source, its flags and the mutable [lastIndex].
    The matcher itself belongs to the JavaScript engine: [RegexEngine] gives,
    for a source, flags, a subject and an index, the leftmost match at or after
    that index as (index, matched text). *)

Module RegExp.
Record t := mk {
  source : string;
  flags : string;
  lastIndex : nat
}.
End RegExp.

Definition RegexEngine : Type :=
  string -> string -> string -> nat -> option (nat * string).

Fixpoint hasFlag (f : ascii) (flags : string) : bool :=
  match flags with
  | EmptyString => false
  | String c flags' => Ascii.eqb c f || hasFlag f flags'
  end.

Definition isGlobal (re : RegExp.t) : bool :=
  hasFlag (ascii_of_nat 103) (RegExp.flags re).

Definition setLastIndex (re : RegExp.t) (i : nat) : RegExp.t :=
  RegExp.mk (RegExp.source re) (RegExp.flags re) i.

Definition isSticky (re : RegExp.t) : bool :=
  hasFlag (ascii_of_nat 121) (RegExp.flags re).

(** With the [g] or the [y] flag [exec] reads and writes [lastIndex]. *)
Definition usesLastIndex (re : RegExp.t) : bool :=
  isGlobal re || isSticky re.

(** [re.exec(text)] (RegExpBuiltinExec): an expression with the [g] or the
    [y] flag starts at [lastIndex], moves it past the match, and resets it to
    0 when nothing matches; with [y] the match has to start at [lastIndex]
    itself. An expression with neither flag starts at 0 and leaves
    [lastIndex] alone. The engine is the forward search; stickiness is
    imposed here. The second component is the object after the call. *)
Definition exec (search : RegexEngine) (re : RegExp.t) (text : string)
    : option (nat * string) * RegExp.t :=
  if usesLastIndex re then
    if String.length text <? RegExp.lastIndex re then (None, setLastIndex re 0)
    else
      match search (RegExp.source re) (RegExp.flags re) text (RegExp.lastIndex re) with
      | None => (None, setLastIndex re 0)
      | Some (index, m) =>
          if isSticky re && negb (index =? RegExp.lastIndex re)
          then (None, setLastIndex re 0)
          else (Some (index, m), setLastIndex re (index + String.length m))
      end
  else
    (search (RegExp.source re) (RegExp.flags re) text 0, re).

(** [while ((match = pattern.exec(text)) !== null) { arr.push(make(match)) }] *)
Fixpoint whileExec {B : Type} (search : RegexEngine) (fuel : nat)
    (pattern : RegExp.t) (text : string) (make : nat -> string -> B)
    (arr : list B) : Outcome (list B) * RegExp.t :=
  match fuel with
  | 0 => (OutOfFuel, pattern)
  | S fuel' =>
      match exec search pattern text with
      | (None, pattern') => (Returned arr, pattern')
      | (Some (index, m), pattern') =>
          whileExec search fuel' pattern' text make (arr ++ [make index m])
      end
  end.

(** [patterns.forEach(pattern => { while ... })]; the second component is the
    array of pattern objects after the calls. *)
Fixpoint forEachPattern {B : Type} (search : RegexEngine) (fuel : nat)
    (patterns : list RegExp.t) (text : string) (make : nat -> string -> B)
    (arr : list B) : Outcome (list B) * list RegExp.t :=
  match patterns with
  | [] => (Returned arr, [])
  | pattern :: rest =>
      match whileExec search fuel pattern text make arr with
      | (Returned arr', pattern') =>
          let (o, rest') := forEachPattern search fuel rest text make arr' in
          (o, pattern' :: rest')
      | (Thrown e, pattern') => (Thrown e, pattern' :: rest)
      | (OutOfFuel, pattern') => (OutOfFuel, pattern' :: rest)
      end
  end.

(** ** The tokenizing capability (wink-nlp), an external collaborator *)

Module Token.
Record t := mk {
  out : string;
  lemma : string;
  pos : string;
  offset : nat
}.
End Token.

Module Sentence.
Record t := mk {
  out : string;
  offset : nat
}.
End Sentence.

Module Doc.
Record t := mk {
  tokens : list Token.t;
  sentences : list Sentence.t
}.
End Doc.

(** [nlp.readDoc(text)] returns a document or throws ([inl] is the error). *)
Module Nlp.
Record t := mk {
  readDoc : string -> string + Doc.t
}.
End Nlp.

(** An entry of the arrays returned by the two NLP detectors. *)
Module Detection.
Record t := mk {
  text : string;
  start : nat;
  type : string
}.
End Detection.

(** [sentences.each(sentence => patterns.forEach(pattern => while ...))]: the
    pattern literals are evaluated anew for every sentence, so each loop
    starts from a fresh object and the objects are dropped afterwards. *)
Fixpoint eachSentence (search : RegexEngine) (fuel : nat)
    (patterns : list RegExp.t) (sentences : list Sentence.t)
    (arr : list Detection.t) : Outcome (list Detection.t) :=
  match sentences with
  | [] => Returned arr
  | sentence :: rest =>
      let sentenceText := Sentence.out sentence in
      arr' ← fst (forEachPattern search fuel patterns sentenceText
                    (fun index m =>
                       Detection.mk m (Sentence.offset sentence + index) "phrase")
                    arr);
      eachSentence search fuel patterns rest arr'
  end.

(** ** [detectAbsolutismsNLP] *)

Definition absoluteWords : list string :=
  ["never"; "always"; "forever"; "eternal"; "infinite"; "absolute";
   "complete"; "total"; "entire"; "whole"; "all"; "every"; "none";
   "nothing"; "everything"; "everyone"; "nobody"; "anywhere";
   "everywhere"; "nowhere"; "perfect"; "impossible"; "ultimate"].

Definition intensifiers : list string :=
  ["extremely"; "incredibly"; "unbelievably"; "remarkably";
   "exceptionally"; "extraordinarily"; "tremendously"; "vastly"].

(** A regular expression literal [/source/flags]: a new object, [lastIndex] 0. *)
Definition regexLiteral (source flags : string) : RegExp.t :=
  RegExp.mk source flags 0.

Definition absolutePatterns : list RegExp.t :=
  [regexLiteral "\b(?:far|much|way)\s+(?:more|less|better|worse|bigger|smaller)\b" "gi";
   regexLiteral "\b(?:the\s+)?most\s+\w+" "gi";
   regexLiteral "\b(?:the\s+)?least\s+\w+" "gi";
   regexLiteral "\bof\s+all\s+time\b" "gi";
   regexLiteral "\bin\s+history\b" "gi";
   regexLiteral "\bever\s+(?:seen|heard|known|told|made)\b" "gi"].

(** The body of [doc.tokens().each(token => ...)] for one token. *)
Definition tokenAbsolutisms (token : Token.t) : list Detection.t :=
  let pos := Token.pos token in
  let lemma := Js.toLowerCase (Token.lemma token) in
  let word := Js.toLowerCase (Token.out token) in
  (if String.eqb pos "JJS" || String.eqb pos "RBS"
   then [Detection.mk (Token.out token) (Token.offset token) "superlative"]
   else [])
  ++ (if Js.includes absoluteWords lemma || Js.includes absoluteWords word
      then [Detection.mk (Token.out token) (Token.offset token) "absolute_word"]
      else [])
  ++ (if Js.includes intensifiers lemma
      then [Detection.mk (Token.out token) (Token.offset token) "intensifier"]
      else []).

Definition detectAbsolutismsNLP (search : RegexEngine) (fuel : nat)
    (nlp : option Nlp.t) (text : string) : Outcome (list Detection.t) :=
  match nlp with
  | None => Returned []
  | Some n =>
      tryCatch
        (match Nlp.readDoc n text with
         | inl e => Thrown e
         | inr doc =>
             let absolutisms := flat_map tokenAbsolutisms (Doc.tokens doc) in
             eachSentence search fuel absolutePatterns (Doc.sentences doc) absolutisms
         end)
        (fun _ => Returned [])
  end.

(** ** [detectInversionsNLP] *)

Definition negativeContractions : list string :=
  ["don't"; "doesn't"; "didn't"; "won't"; "wouldn't"; "shouldn't";
   "couldn't"; "can't"; "isn't"; "aren't"; "wasn't"; "weren't";
   "haven't"; "hasn't"; "hadn't"; "mustn't"; "needn't"; "shan't"].

Definition inversionPatterns : list RegExp.t :=
  [regexLiteral "\bnotice what (?:he|she|they|we|you|i) didn't say\b" "gi";
   regexLiteral "\b(?:not|never) (?:a|an|the)?\s*(?:single|one)\b" "gi";
   regexLiteral "\bfar from (?:being|the|a)\b" "gi";
   regexLiteral "\banything but\b" "gi";
   regexLiteral "\bcontrary to\b" "gi";
   regexLiteral "\bopposite of\b" "gi"].

Definition tokenInversions (token : Token.t) : list Detection.t :=
  let word := Js.toLowerCase (Token.out token) in
  let lemma := Js.toLowerCase (Token.lemma token) in
  let pos := Token.pos token in
  (if Js.includes negativeContractions word
   then [Detection.mk (Token.out token) (Token.offset token) "contraction"]
   else [])
  ++ (if String.eqb lemma "not" || String.eqb word "no" || String.eqb lemma "never"
      then [Detection.mk (Token.out token) (Token.offset token) "negation"]
      else [])
  ++ (if (Js.startsWith pos "JJ" || Js.startsWith pos "VB")
         && (Js.startsWith word "un" || Js.startsWith word "dis"
             || Js.startsWith word "in" || Js.startsWith word "im"
             || Js.startsWith word "non" || Js.startsWith word "anti")
      then [Detection.mk (Token.out token) (Token.offset token) "negative_prefix"]
      else []).

Definition detectInversionsNLP (search : RegexEngine) (fuel : nat)
    (nlp : option Nlp.t) (text : string) : Outcome (list Detection.t) :=
  match nlp with
  | None => Returned []
  | Some n =>
      tryCatch
        (match Nlp.readDoc n text with
         | inl e => Thrown e
         | inr doc =>
             let inversions := flat_map tokenInversions (Doc.tokens doc) in
             eachSentence search fuel inversionPatterns (Doc.sentences doc) inversions
         end)
        (fun _ => Returned [])
  end.

(** ** [TensionHighlighter]: [escapeHtml], [findTensionPhrases], [analyzeText] *)

Definition escapeHtml (text : string) : string :=
  Js.replaceAll ">"%char "&gt;"
    (Js.replaceAll "<"%char "&lt;"
       (Js.replaceAll "&"%char "&amp;" text)).

(** An entry of the array returned by [findTensionPhrases]. *)
Module TensionMatch.
Record t := mk {
  text : string;
  start : nat;
  end_ : nat;
  type : Category
}.
End TensionMatch.

(** [TENSION_PATTERNS] is imported from utils/tensionPatterns, which is not part
    of the sources at hand: the array of pattern objects is an argument, and
    since the objects are shared by all calls the array is also returned, as
    the call leaves it. *)
Definition findTensionPhrases (search : RegexEngine) (fuel : nat)
    (TENSION_PATTERNS : list RegExp.t) (text : string)
    : Outcome (list TensionMatch.t) * list RegExp.t :=
  forEachPattern search fuel TENSION_PATTERNS text
    (fun index m => TensionMatch.mk m index (index + String.length m) tension)
    [].

(** The result of [useNLP]. *)
Module UseNLP.
Record t := mk {
  nlp : option Nlp.t;
  isLoaded : bool;
  error : option string
}.
End UseNLP.

Module Stats.
Record t := mk {
  total : nat;
  tension : nat;
  absolutism : nat;
  inversion : nat
}.
End Stats.

(** What a call of [analyzeText] leaves in the component state through
    [setHighlightedText] and [setStats]. *)
Module AnalysisResult.
Record t := mk {
  highlightedText : string;
  stats : Stats.t
}.
End AnalysisResult.

(** The local variables the three [forEach] loops of [analyzeText] update. *)
Module Locals.
Record t := mk {
  highlights : list Highlight.t;
  allMatches : gset string;
  tensionCount : nat;
  absolutismCount : nat;
  inversionCount : nat
}.
End Locals.

(** The objects the three loops push to [highlights]. *)
Definition tensionHighlight (m : TensionMatch.t) : Highlight.t :=
  Highlight.mk (TensionMatch.text m) (TensionMatch.start m) (TensionMatch.end_ m)
    (TensionMatch.type m) "highlight-tension".

Definition absolutismHighlight (abs : Detection.t) : Highlight.t :=
  Highlight.mk (Detection.text abs) (Detection.start abs)
    (Detection.start abs + String.length (Detection.text abs))
    absolutism "highlight-absolutism".

Definition inversionHighlight (inv : Detection.t) : Highlight.t :=
  Highlight.mk (Detection.text inv) (Detection.start inv)
    (Detection.start inv + String.length (Detection.text inv))
    inversion "highlight-inversion".

Definition initialLocals : Locals.t := Locals.mk [] ∅ 0 0 0.

Definition addTension (l : Locals.t) (m : TensionMatch.t) : Locals.t :=
  Locals.mk
    (Locals.highlights l ++ [tensionHighlight m])
    (Locals.allMatches l ∪ {[Js.toLowerCase (TensionMatch.text m)]})
    (S (Locals.tensionCount l))
    (Locals.absolutismCount l)
    (Locals.inversionCount l).

Definition addAbsolutism (l : Locals.t) (abs : Detection.t) : Locals.t :=
  Locals.mk
    (Locals.highlights l ++ [absolutismHighlight abs])
    (Locals.allMatches l ∪ {[Js.toLowerCase (Detection.text abs)]})
    (Locals.tensionCount l)
    (S (Locals.absolutismCount l))
    (Locals.inversionCount l).

Definition addInversion (l : Locals.t) (inv : Detection.t) : Locals.t :=
  Locals.mk
    (Locals.highlights l ++ [inversionHighlight inv])
    (Locals.allMatches l ∪ {[Js.toLowerCase (Detection.text inv)]})
    (Locals.tensionCount l)
    (Locals.absolutismCount l)
    (S (Locals.inversionCount l)).

(** The [if (isNlpLoaded && nlp) { ... }] block. *)
Definition addNlpDetections (search : RegexEngine) (fuel : nat)
    (hook : UseNLP.t) (inputText : string) (l : Locals.t) : Outcome Locals.t :=
  match UseNLP.isLoaded hook, UseNLP.nlp hook with
  | true, Some n =>
      absolutisms ← detectAbsolutismsNLP search fuel (Some n) inputText;
      let l1 := fold_left addAbsolutism absolutisms l in
      inversions ← detectInversionsNLP search fuel (Some n) inputText;
      Returned (fold_left addInversion inversions l1)
  | _, _ => Returned l
  end.

(** The template literal that wraps one highlight. *)
Definition highlighted (highlight : Highlight.t) : string :=
  "<span class=" +:+ dq +:+ Highlight.class highlight +:+ dq +:+ ">"
  +:+ Highlight.text highlight +:+ "</span>".

(** The body of [filteredHighlights.forEach]. *)
Definition applyHighlight (processedText : string) (highlight : Highlight.t)
    : string :=
  let before := Js.substringTo processedText (Highlight.start highlight) in
  let after := Js.substringFrom processedText (Highlight.end_ highlight) in
  before +:+ highlighted highlight +:+ after.

(** From the first [highlights.sort] to the argument of [setHighlightedText]. *)
Definition renderHighlights (processedText : string)
    (highlights : list Highlight.t) : string :=
  let sorted := Js.sort byStartAsc highlights in
  let filteredHighlights := removeOverlaps sorted in
  let descending := Js.sort byStartDesc filteredHighlights in
  let processedText' := fold_left applyHighlight descending processedText in
  Js.replaceAll (ascii_of_nat 10) "<br>" processedText'.

Definition emptyInputResult : AnalysisResult.t :=
  AnalysisResult.mk
    ("<p class=" +:+ dq +:+ "text-gray-500" +:+ dq
     +:+ ">Please enter some text to analyze.</p>")
    (Stats.mk 0 0 0 0).

Definition failedResult : AnalysisResult.t :=
  AnalysisResult.mk
    ("<p class=" +:+ dq +:+ "text-red-500" +:+ dq
     +:+ ">Analysis failed. Please try again.</p>")
    (Stats.mk 0 0 0 0).

(** The [try] block of [analyzeText]. The 100 ms pause and [setIsAnalyzing]
    do not take part in the result and are left out. *)
Definition analysisBody (search : RegexEngine) (fuel : nat)
    (TENSION_PATTERNS : list RegExp.t) (hook : UseNLP.t) (inputText : string)
    : Outcome AnalysisResult.t * list RegExp.t :=
  let processedText := escapeHtml inputText in
  let (found, patterns') := findTensionPhrases search fuel TENSION_PATTERNS inputText in
  (tensionMatches ← found;
   let l0 := fold_left addTension tensionMatches initialLocals in
   l ← addNlpDetections search fuel hook inputText l0;
   Returned
     (AnalysisResult.mk
        (renderHighlights processedText (Locals.highlights l))
        (Stats.mk (size (Locals.allMatches l)) (Locals.tensionCount l)
           (Locals.absolutismCount l) (Locals.inversionCount l))),
   patterns').

(** The [catch] block of [analyzeText], applied to the outcome of the [try]
    block. *)
Definition catchAnalysisFailure (body : Outcome AnalysisResult.t)
    : Outcome AnalysisResult.t :=
  tryCatch body (fun _ => Returned failedResult).

Definition analyzeText (search : RegexEngine) (fuel : nat)
    (TENSION_PATTERNS : list RegExp.t) (hook : UseNLP.t) (inputText : string)
    : Outcome AnalysisResult.t * list RegExp.t :=
  if negb (Js.truthy (Js.trim inputText)) then
    (Returned emptyInputResult, TENSION_PATTERNS)
  else
    let (body, patterns') :=
      analysisBody search fuel TENSION_PATTERNS hook inputText in
    (catchAnalysisFailure body, patterns').

(** ** Vocabulary of the statements *)

(** A tokenizer is available when the hook reports it loaded and holds it. *)
Definition nlpReady (hook : UseNLP.t) : bool :=
  UseNLP.isLoaded hook && bool_decide (is_Some (UseNLP.nlp hook)).

(** The raw output of the two NLP detectors as [analyzeText] obtains it: none
    when the tokenizer is not available. *)
Definition rawAbsolutisms (search : RegexEngine) (fuel : nat) (hook : UseNLP.t)
    (inputText : string) : Outcome (list Detection.t) :=
  if nlpReady hook then detectAbsolutismsNLP search fuel (UseNLP.nlp hook) inputText
  else Returned [].

Definition rawInversions (search : RegexEngine) (fuel : nat) (hook : UseNLP.t)
    (inputText : string) : Outcome (list Detection.t) :=
  if nlpReady hook then detectInversionsNLP search fuel (UseNLP.nlp hook) inputText
  else Returned [].

(** The highlights and the counts of a run whose three detections return. *)
Definition collectedHighlights (tm : list TensionMatch.t)
    (abs inv : list Detection.t) : list Highlight.t :=
  map tensionHighlight tm ++ map absolutismHighlight abs ++ map inversionHighlight inv.

Definition collectedTexts (tm : list TensionMatch.t)
    (abs inv : list Detection.t) : list string :=
  map TensionMatch.text tm ++ map Detection.text abs ++ map Detection.text inv.

(** The set of distinct lower-case surface texts of a list of texts. *)
Definition distinctLowercase (texts : list string) : gset string :=
  list_to_set (map Js.toLowerCase texts).

(** What the engine guarantees of a match: it lies at or after the index the
    search started from, and inside the subject. *)
Definition EngineSound (search : RegexEngine) : Prop :=
  forall source flags text from index m,
    search source flags text from = Some (index, m) ->
    from <= index /\ index + String.length m <= String.length text.

(** A pattern that a [while (pattern.exec(text))] loop gets through: it has
    the [g] flag and never matches the empty string. *)
Definition Progressive (search : RegexEngine) (re : RegExp.t) : Prop :=
  isGlobal re = true
  /\ forall text from index m,
      search (RegExp.source re) (RegExp.flags re) text from = Some (index, m) ->
      m <> "".



(** A span as the specification has it: a non-empty text that ends at
    [start + length] and inside the input. *)
Definition WellFormedSpan (inputText : string) (h : Highlight.t) : Prop :=
  Highlight.text h <> ""
  /\ Highlight.end_ h = Highlight.start h + String.length (Highlight.text h)
  /\ Highlight.end_ h <= String.length inputText.

Definition startsBefore (a b : Highlight.t) : Prop :=
  Highlight.start a < Highlight.start b.

(** The spans of a token at the same place as [token]. *)
Definition sameSpan (token : Token.t) (h : Highlight.t) : bool :=
  (Highlight.start h =? Token.offset token)
  && (Highlight.end_ h =? Token.offset token + String.length (Token.out token)).

(** [c] occurs in [s]. *)
Fixpoint hasChar (c : ascii) (s : string) : bool :=
  match s with
  | EmptyString => false
  | String d s' => Ascii.eqb d c || hasChar c s'
  end.

(** [needle] occurs in [s]. *)
Fixpoint occursIn (needle s : string) : bool :=
  Js.startsWith s needle
  || match s with
     | EmptyString => false
     | String _ s' => occursIn needle s'
     end.

(** One of the three characters [escapeHtml] replaces. *)
Definition isMarkupChar (c : ascii) : bool :=
  Ascii.eqb c "&"%char || Ascii.eqb c "<"%char || Ascii.eqb c ">"%char.

Fixpoint hasMarkupChar (s : string) : bool :=
  match s with
  | EmptyString => false
  | String c s' => isMarkupChar c || hasMarkupChar s'
  end.

(** No [<] or [>], and every [&] opens one of the three entities. *)
Fixpoint noRawMarkup (s : string) : bool :=
  match s with
  | EmptyString => true
  | String c s' =>
      if Ascii.eqb c "<"%char || Ascii.eqb c ">"%char then false
      else if Ascii.eqb c "&"%char then
        (Js.startsWith s' "amp;" || Js.startsWith s' "lt;" || Js.startsWith s' "gt;")
        && noRawMarkup s'
      else noRawMarkup s'
  end.

Definition newlinesToBr (s : string) : string :=
  Js.replaceAll (ascii_of_nat 10) "<br>" s.

(** The opening tag of the wrapper of a highlight. *)
Definition openingTag (h : Highlight.t) : string :=
  "<span class=" +:+ dq +:+ Highlight.class h +:+ dq +:+ ">".

(** [s.substring(a, b)] for [a <= b]. *)
Definition substring (s : string) (a b : nat) : string :=
  Js.substringTo (Js.substringFrom s a) (b - a).

(** The forEach over the descending array, seen from the ascending one. *)
Definition spliceAll (processedText : string) (kept : list Highlight.t) : string :=
  foldr (fun h acc => applyHighlight acc h) processedText kept.

(** One pass from left to right over [processedText] itself: the text between
    the spans is copied by the offsets of the spans, as they are. *)
Fixpoint spliceLeftToRight (processedText : string) (position : nat)
    (kept : list Highlight.t) : string :=
  match kept with
  | [] => Js.substringFrom processedText position
  | h :: rest =>
      substring processedText position (Highlight.start h)
      +:+ highlighted h
      +:+ spliceLeftToRight processedText (Highlight.end_ h) rest
  end.

(** The annotated rendering in the words of the specification: one pass from
    left to right over the kept spans in ascending order, copying the escaped
    text between the spans and wrapping every span around its matched text. *)
Fixpoint annotateFrom (inputText : string) (position : nat)
    (kept : list Highlight.t) : string :=
  match kept with
  | [] => escapeHtml (Js.substringFrom inputText position)
  | h :: rest =>
      escapeHtml (substring inputText position (Highlight.start h))
      +:+ highlighted h
      +:+ annotateFrom inputText (Highlight.end_ h) rest
  end.

Definition expectedMarkup (inputText : string) (kept : list Highlight.t) : string :=
  Js.replaceAll (ascii_of_nat 10) "<br>" (annotateFrom inputText 0 kept).

(** ** Concrete collaborators for the examples *)

(** First index at or after [from] where [needle] occurs in [text]. *)
Fixpoint indexOfFrom (needle text : string) (from : nat) {struct text} : option nat :=
  match from, text with
  | 0, EmptyString => if Js.startsWith text needle then Some 0 else None
  | 0, String _ text' =>
      if Js.startsWith text needle then Some 0
      else S <$> indexOfFrom needle text' 0
  | S _, EmptyString => None
  | S from', String _ text' => S <$> indexOfFrom needle text' from'
  end.

(** An engine that reads every source as a literal, case-sensitive string. *)
Definition literalEngine : RegexEngine :=
  fun source _ text from => (fun i => (i, source)) <$> indexOfFrom source text from.

Definition flushWord (word : string) (wordStart : nat) : list Token.t :=
  match word with
  | EmptyString => []
  | _ => [Token.mk word (Js.toLowerCase word) "NN" wordStart]
  end.

Fixpoint scanTokens (s : string) (position : nat) (word : string)
    (wordStart : nat) : list Token.t :=
  match s with
  | EmptyString => flushWord word wordStart
  | String c s' =>
      if Js.isSpace c
      then flushWord word wordStart ++ scanTokens s' (S position) "" (S position)
      else scanTokens s' (S position) (word +:+ String c "") wordStart
  end.

(** A tokenizer that cuts at white space, takes the lower-case word as lemma
    and the whole text as its one sentence. *)
Definition whitespaceNlp : Nlp.t :=
  Nlp.mk (fun text => inr (Doc.mk (scanTokens text 0 "" 0) [Sentence.mk text 0])).

(** A tokenizer whose [readDoc] throws. *)
Definition brokenNlp : Nlp.t :=
  Nlp.mk (fun _ => inl "readDoc failed").

(** A tokenizer that reports the lemma "ever" for the word "never". *)
Definition otherLemmaNlp : Nlp.t :=
  Nlp.mk (fun text =>
    inr (Doc.mk [Token.mk "never" "ever" "RB" 0] [Sentence.mk text 0])).

Definition readyHook (n : Nlp.t) : UseNLP.t := UseNLP.mk (Some n) true None.
Definition loadingHook : UseNLP.t := UseNLP.mk None false None.

(** A one-rule pattern library for the examples. *)
Definition samplePatterns : list RegExp.t := [RegExp.mk "shocking" "gi" 0].

(** The two spans a token "never" at offset 4 gives, and a rule and a text
    with an ampersand, for the examples. *)
Definition neverAbsolutism : Detection.t := Detection.mk "never" 4 "absolute_word".
Definition neverNegation : Detection.t := Detection.mk "never" 4 "negation".
Definition ampersandPatterns : list RegExp.t := [RegExp.mk "R&D" "g" 0].
Definition ampersandMatch : TensionMatch.t := TensionMatch.mk "R&D" 4 7 tension.

(** The example text of the witnesses and what the collaborators above find
    in it. *)
Definition sampleText : string := "a shocking never".
Definition shockingMatch : TensionMatch.t := TensionMatch.mk "shocking" 2 10 tension.
Definition sampleAbsolutism : Detection.t := Detection.mk "never" 11 "absolute_word".
Definition sampleNegation : Detection.t := Detection.mk "never" 11 "negation".
Definition sampleToken : Token.t := Token.mk "never" "never" "NN" 11.
Definition sampleDoc : Doc.t :=
  Doc.mk [Token.mk "a" "a" "NN" 0; Token.mk "shocking" "shocking" "NN" 2; sampleToken]
    [Sentence.mk sampleText 0].


(** ** The rest of the component and of the hook *)

(** What [escapeHtml] puts in place of one code unit. *)
Definition escapeChar (c : ascii) : string :=
  if Ascii.eqb c "&"%char then "&amp;"
  else if Ascii.eqb c "<"%char then "&lt;"
  else if Ascii.eqb c ">"%char then "&gt;"
  else String c "".

(** Every code unit of [s] is white space. *)
Fixpoint allSpaces (s : string) : bool :=
  match s with
  | EmptyString => true
  | String c s' => Js.isSpace c && allSpaces s'
  end.

(** How the dynamic imports and the construction of the instance in
    [initializeNLP] end. *)
Inductive ImportOutcome :=
| Imported (nlpInstance : Nlp.t)
| ImportFailed (err : string).

(** [useNLP]: the three [useState] cells before the effect has run. *)
Definition initialHook : UseNLP.t := UseNLP.mk None false None.

(** [initializeNLP]: the hook after each setter call of the [try] block or of
    the [catch] block, in order. *)
Definition initializeNLP (o : ImportOutcome) : list UseNLP.t :=
  match o with
  | Imported nlpInstance =>
      [UseNLP.mk (Some nlpInstance) false None;
       UseNLP.mk (Some nlpInstance) true None]
  | ImportFailed err =>
      [UseNLP.mk None false (Some err);
       UseNLP.mk None false (Some err)]
  end.

(** Every value [useNLP] returns in the life of the component. *)
Definition hookStates (o : ImportOutcome) : list UseNLP.t :=
  initialHook :: initializeNLP o.

(** The [nlpStatus] memo of [TensionHighlighter]. *)
Definition nlpStatus (hook : UseNLP.t) : string :=
  if bool_decide (is_Some (UseNLP.error hook)) then "NLP Error"
  else if UseNLP.isLoaded hook then "NLP Ready"
  else "Loading NLP...".

(** The colour classes of the status badge. *)
Definition statusBadgeClass (hook : UseNLP.t) : string :=
  if UseNLP.isLoaded hook then "bg-green-100 text-green-800"
  else if bool_decide (is_Some (UseNLP.error hook)) then "bg-red-100 text-red-800"
  else "bg-yellow-100 text-yellow-800".

(** One occurrence of a rule ends where the next one starts, or before. *)
Definition matchEndsBefore (a b : TensionMatch.t) : Prop :=
  TensionMatch.end_ a <= TensionMatch.start b.

(** Where a detection of an NLP detector comes from: a token of the document,
    with one of the token subtypes, or a phrase inside a sentence. *)
Definition FromToken (doc : Doc.t) (subtypes : list string) (d : Detection.t) : Prop :=
  exists token, token ∈ Doc.tokens doc
    /\ Detection.text d = Token.out token
    /\ Detection.start d = Token.offset token
    /\ Detection.type d ∈ subtypes.

Definition FromSentence (doc : Doc.t) (d : Detection.t) : Prop :=
  Detection.type d = "phrase"
  /\ exists sentence, sentence ∈ Doc.sentences doc
      /\ Sentence.offset sentence <= Detection.start d
      /\ Detection.start d + String.length (Detection.text d)
         <= Sentence.offset sentence + String.length (Sentence.out sentence).

Definition emptyPatterns : list RegExp.t := [RegExp.mk "" "g" 0].
Definition lateMarkupText : string := "so shocking & <new>".
Definition lateMarkupMatch : TensionMatch.t := TensionMatch.mk "shocking" 3 11 tension.
Definition neverAtStart : TensionMatch.t := TensionMatch.mk "never" 0 5 tension.

(** * Properties *)

(** ** The stable sort *)

Section SortFacts.
Context {A : Type} (cmp : A -> A -> Z).

Lemma insertBy_perm (x : A) (l : list A) : Js.insertBy cmp x l ≡ₚ x :: l.
Proof.
  induction l as [|y l IH]; simpl; [done|].
  destruct (cmp x y <=? 0)%Z; [done|].
  rewrite IH. apply Permutation_swap.
Qed.

Lemma sort_perm (l : list A) : Js.sort cmp l ≡ₚ l.
Proof.
  induction l as [|x l IH]; simpl; [done|].
  rewrite insertBy_perm. by f_equiv.
Qed.

Lemma sort_elem_of (x : A) (l : list A) : x ∈ Js.sort cmp l ↔ x ∈ l.
Proof. by rewrite sort_perm. Qed.

(** An element moves only past elements it compares greater than, so the
    elements that satisfy [P] keep their order whenever [x] compares greater
    than none of them or does not satisfy [P] itself. *)
Lemma insertBy_filter (P : A -> bool) (x : A) (l : list A) :
  (P x = true -> forall y, y ∈ l -> P y = true -> (cmp x y <=? 0)%Z = true) ->
  List.filter P (Js.insertBy cmp x l) = List.filter P (x :: l).
Proof.
  induction l as [|y l IH]; intros H; simpl; [done|].
  destruct (cmp x y <=? 0)%Z eqn:E; [done|].
  simpl. rewrite IH.
  - simpl. destruct (P x) eqn:Px, (P y) eqn:Py; try done.
    rewrite H in E; [done|done|by left|done].
  - intros Px z Hz Pz. apply H; [done|by right|done].
Qed.

End SortFacts.

Lemma insertBy_asc_sorted (x : Highlight.t) (l : list Highlight.t) :
  StronglySorted startsAscend l ->
  StronglySorted startsAscend (Js.insertBy byStartAsc x l).
Proof.
  induction 1 as [|y l Hl IH Hy]; simpl.
  - repeat constructor.
  - unfold byStartAsc at 1.
    destruct (Z.leb_spec (Z.of_nat (Highlight.start x) - Z.of_nat (Highlight.start y)) 0).
    + constructor; [by constructor|].
      constructor; [unfold startsAscend; lia|].
      eapply Forall_impl; [exact Hy|]. unfold startsAscend. intros; lia.
    + constructor; [done|].
      rewrite (insertBy_perm byStartAsc x l).
      constructor; [unfold startsAscend; lia|done].
Qed.

Lemma sort_asc_sorted (l : list Highlight.t) :
  StronglySorted startsAscend (Js.sort byStartAsc l).
Proof.
  induction l as [|x l IH]; simpl; [constructor|].
  by apply insertBy_asc_sorted.
Qed.

(** Spans with the same start keep the order they had in [highlights]. *)
Lemma sort_asc_stable (s : nat) (l : list Highlight.t) :
  List.filter (fun h => Highlight.start h =? s) (Js.sort byStartAsc l)
  = List.filter (fun h => Highlight.start h =? s) l.
Proof.
  induction l as [|x l IH]; simpl Js.sort; [done|].
  rewrite insertBy_filter.
  - simpl. by rewrite IH.
  - intros Hx y _ Hy. apply Nat.eqb_eq in Hx, Hy.
    unfold byStartAsc. apply Z.leb_le. lia.
Qed.

(** ** The greedy overlap filter *)

Lemma overlapsExisting_spec (highlight existing : Highlight.t) :
  overlapsExisting highlight existing = true <-> Overlaps existing highlight.
Proof.
  unfold overlapsExisting, Overlaps.
  rewrite orb_true_iff, !andb_true_iff, !Nat.leb_le, !Nat.ltb_lt. done.
Qed.

Lemma isOverlapping_spec (highlight : Highlight.t) (kept : list Highlight.t) :
  isOverlapping highlight kept = true
  <-> exists k, k ∈ kept /\ Overlaps k highlight.
Proof.
  unfold isOverlapping. rewrite existsb_exists.
  split; intros (k & Hk & Ho); exists k.
  - by rewrite list_elem_of_In, <- overlapsExisting_spec.
  - by rewrite <- list_elem_of_In, overlapsExisting_spec.
Qed.

Lemma removeOverlaps_snoc (seen : list Highlight.t) (candidate : Highlight.t) :
  removeOverlaps (seen ++ [candidate]) = keepStep (removeOverlaps seen) candidate.
Proof. unfold removeOverlaps. by rewrite fold_left_app. Qed.

Lemma keepStep_prefix (kept : list Highlight.t) (rest : list Highlight.t) :
  kept `prefix_of` fold_left keepStep rest kept.
Proof.
  revert kept. induction rest as [|h rest IH]; intros kept; simpl; [done|].
  etrans; [|apply IH]. unfold keepStep.
  destruct (isOverlapping h kept); [done|]. by apply prefix_app_r.
Qed.

Lemma removeOverlaps_prefix (seen rest : list Highlight.t) :
  removeOverlaps seen `prefix_of` removeOverlaps (seen ++ rest).
Proof. unfold removeOverlaps. rewrite fold_left_app. apply keepStep_prefix. Qed.

Lemma removeOverlaps_subset (h : Highlight.t) (l : list Highlight.t) :
  h ∈ removeOverlaps l -> h ∈ l.
Proof.
  induction l as [|c l IH] using rev_ind; [done|].
  rewrite removeOverlaps_snoc. unfold keepStep.
  destruct (isOverlapping c (removeOverlaps l)); rewrite !elem_of_app.
  - intros Hh. left. by apply IH.
  - intros [Hh|Hh]; [left; by apply IH|by right].
Qed.

Lemma removeOverlaps_ordered (l : list Highlight.t) :
  StronglySorted startsAscend l ->
  StronglySorted endsBefore (removeOverlaps l).
Proof.
  induction l as [|c l IH] using rev_ind; intros Hs; [constructor|].
  apply StronglySorted_app in Hs as (Hlc & Hl & _).
  rewrite removeOverlaps_snoc. unfold keepStep.
  destruct (isOverlapping c (removeOverlaps l)) eqn:E; [by apply IH|].
  apply StronglySorted_app. split_and!; [|by apply IH|repeat constructor].
  intros k Hk c' Hc'. apply list_elem_of_singleton in Hc' as ->.
  assert (Hle : startsAscend k c).
  { apply Hlc; [by apply removeOverlaps_subset|by left]. }
  destruct (decide (Highlight.end_ k <= Highlight.start c)) as [|Hn]; [done|].
  assert (isOverlapping c (removeOverlaps l) = true); [|congruence].
  apply isOverlapping_spec. exists k. split; [done|].
  left. unfold startsAscend in Hle. lia.
Qed.

Lemma keptHighlights_ordered (highlights : list Highlight.t) :
  StronglySorted endsBefore (keptHighlights highlights).
Proof. apply removeOverlaps_ordered, sort_asc_sorted. Qed.

Lemma StronglySorted_lookup {A : Type} (R : A -> A -> Prop) (l : list A)
    (i j : nat) (a b : A) :
  StronglySorted R l -> i < j -> l !! i = Some a -> l !! j = Some b -> R a b.
Proof.
  intros Hs. revert i j. induction Hs as [|x l Hl IH Hx]; intros i j Hij Hi Hj.
  - done.
  - destruct j as [|j]; [lia|]. destruct i as [|i]; simpl in *.
    + injection Hi as <-. rewrite Forall_forall in Hx. apply Hx.
      by eapply list_elem_of_lookup_2.
    + apply (IH i j); [lia|done|done].
Qed.

(** C1. Scanning the spans in ascending order of start, where the stable sort
    leaves spans of equal start in the order of [highlights] (tension spans
    first), a span is kept exactly when no span kept before it satisfies
    kept.start <= span.start < kept.end or kept.start < span.end <= kept.end;
    kept spans stay kept; and [{0,5},{2,8},{10,12}] gives [{0,5},{10,12}]. *)
Theorem removeOverlaps_greedy :
  (forall highlights : list Highlight.t,
      StronglySorted startsAscend (Js.sort byStartAsc highlights)
      /\ Js.sort byStartAsc highlights ≡ₚ highlights
      /\ forall s,
          List.filter (fun h => Highlight.start h =? s) (Js.sort byStartAsc highlights)
          = List.filter (fun h => Highlight.start h =? s) highlights)
  /\ (forall (seen rest : list Highlight.t) (candidate : Highlight.t),
         let kept := removeOverlaps seen in
         removeOverlaps (seen ++ [candidate])
         = (if isOverlapping candidate kept then kept else kept ++ [candidate])
         /\ (isOverlapping candidate kept = true
             <-> exists k, k ∈ kept /\ Overlaps k candidate)
         /\ removeOverlaps (seen ++ [candidate])
              `prefix_of` removeOverlaps (seen ++ candidate :: rest))
  /\ keptHighlights [spanOf 0 5; spanOf 2 8; spanOf 10 12]
     = [spanOf 0 5; spanOf 10 12].
Proof.
  split_and!.
  - intros highlights. split_and!.
    + apply sort_asc_sorted.
    + apply sort_perm.
    + intros s. apply sort_asc_stable.
  - intros seen rest candidate kept. split_and!.
    + apply removeOverlaps_snoc.
    + apply isOverlapping_spec.
    + rewrite (cons_middle candidate seen rest), app_assoc.
      apply removeOverlaps_prefix.
  - reflexivity.
Qed.

(** C2. The kept spans are pairwise non-overlapping: any two of them, at
    distinct positions of the kept list, satisfy A.end <= B.start or
    B.end <= A.start. *)
Theorem keptHighlights_pairwise_disjoint (highlights : list Highlight.t)
    (i j : nat) (A B : Highlight.t) :
  i <> j ->
  keptHighlights highlights !! i = Some A ->
  keptHighlights highlights !! j = Some B ->
  Highlight.end_ A <= Highlight.start B \/ Highlight.end_ B <= Highlight.start A.
Proof.
  intros Hij HA HB.
  pose proof (keptHighlights_ordered highlights) as Hs.
  destruct (decide (i < j)).
  - left. by apply (StronglySorted_lookup endsBefore _ i j A B Hs).
  - right. apply (StronglySorted_lookup endsBefore _ j i B A Hs); [lia|done|done].
Qed.

Lemma keptHighlights_pairwise_disjoint_witness :
  keptHighlights [spanOf 0 5; spanOf 2 8; spanOf 10 12] !! 0 = Some (spanOf 0 5)
  /\ keptHighlights [spanOf 0 5; spanOf 2 8; spanOf 10 12] !! 1 = Some (spanOf 10 12)
  /\ (Highlight.end_ (spanOf 0 5) <= Highlight.start (spanOf 10 12)
      \/ Highlight.end_ (spanOf 10 12) <= Highlight.start (spanOf 0 5)).
Proof.
  split; [reflexivity|]. split; [reflexivity|].
  apply (keptHighlights_pairwise_disjoint
           [spanOf 0 5; spanOf 2 8; spanOf 10 12] 0 1);
    [lia | reflexivity | reflexivity].
Defined.

(** ** The three collecting loops and the counts *)

Lemma distinctLowercase_app (l1 l2 : list string) :
  distinctLowercase (l1 ++ l2) = distinctLowercase l1 ∪ distinctLowercase l2.
Proof. unfold distinctLowercase. rewrite map_app. apply list_to_set_app_L. Qed.

Lemma distinctLowercase_size (l : list string) :
  size (distinctLowercase l) <= length l.
Proof.
  unfold distinctLowercase. induction l as [|x l IH]; simpl.
  - change (size (∅ : gset string) <= 0). by rewrite size_empty.
  - rewrite size_union_alt, size_singleton.
    pose proof (subseteq_size (list_to_set (map Js.toLowerCase l) ∖ {[Js.toLowerCase x]})
                  (list_to_set (map Js.toLowerCase l) : gset string)) as Hsub.
    assert (size (list_to_set (map Js.toLowerCase l) ∖ {[Js.toLowerCase x]} : gset string)
            <= size (list_to_set (map Js.toLowerCase l) : gset string)).
    { apply Hsub. set_solver. }
    lia.
Qed.

Lemma fold_addTension (ms : list TensionMatch.t) (l : Locals.t) :
  fold_left addTension ms l
  = Locals.mk (Locals.highlights l ++ map tensionHighlight ms)
      (Locals.allMatches l ∪ distinctLowercase (map TensionMatch.text ms))
      (Locals.tensionCount l + length ms)
      (Locals.absolutismCount l) (Locals.inversionCount l).
Proof.
  revert l. induction ms as [|m ms IH]; intros [hs am tc ac ic]; simpl.
  - f_equal; [by rewrite app_nil_r|unfold distinctLowercase; set_solver|lia].
  - rewrite IH. unfold addTension, tensionHighlight, distinctLowercase. simpl.
    f_equal; [by rewrite <- app_assoc|set_solver|lia].
Qed.

Lemma fold_addAbsolutism (ds : list Detection.t) (l : Locals.t) :
  fold_left addAbsolutism ds l
  = Locals.mk (Locals.highlights l ++ map absolutismHighlight ds)
      (Locals.allMatches l ∪ distinctLowercase (map Detection.text ds))
      (Locals.tensionCount l)
      (Locals.absolutismCount l + length ds) (Locals.inversionCount l).
Proof.
  revert l. induction ds as [|d ds IH]; intros [hs am tc ac ic]; simpl.
  - f_equal; [by rewrite app_nil_r|unfold distinctLowercase; set_solver|lia].
  - rewrite IH. unfold addAbsolutism, absolutismHighlight, distinctLowercase. simpl.
    f_equal; [by rewrite <- app_assoc|set_solver|lia].
Qed.

Lemma fold_addInversion (ds : list Detection.t) (l : Locals.t) :
  fold_left addInversion ds l
  = Locals.mk (Locals.highlights l ++ map inversionHighlight ds)
      (Locals.allMatches l ∪ distinctLowercase (map Detection.text ds))
      (Locals.tensionCount l) (Locals.absolutismCount l)
      (Locals.inversionCount l + length ds).
Proof.
  revert l. induction ds as [|d ds IH]; intros [hs am tc ac ic]; simpl.
  - f_equal; [by rewrite app_nil_r|unfold distinctLowercase; set_solver|lia].
  - rewrite IH. unfold addInversion, inversionHighlight, distinctLowercase. simpl.
    f_equal; [by rewrite <- app_assoc|set_solver|lia].
Qed.

Lemma addNlpDetections_returned (search : RegexEngine) (fuel : nat)
    (hook : UseNLP.t) (inputText : string) (l : Locals.t)
    (abs inv : list Detection.t) :
  rawAbsolutisms search fuel hook inputText = Returned abs ->
  rawInversions search fuel hook inputText = Returned inv ->
  addNlpDetections search fuel hook inputText l
  = Returned (fold_left addInversion inv (fold_left addAbsolutism abs l)).
Proof.
  unfold rawAbsolutisms, rawInversions, addNlpDetections, nlpReady.
  destruct hook as [[n|] [|] err]; simpl.
  - intros -> ->. reflexivity.
  - intros [= <-] [= <-]. reflexivity.
  - intros [= <-] [= <-]. reflexivity.
  - intros [= <-] [= <-]. reflexivity.
Qed.

(** A run on a non-blank text whose three detections return. *)
Lemma analyzeText_returned (search : RegexEngine) (fuel : nat)
    (patterns patterns' : list RegExp.t) (hook : UseNLP.t) (inputText : string)
    (tm : list TensionMatch.t) (abs inv : list Detection.t) :
  Js.truthy (Js.trim inputText) = true ->
  findTensionPhrases search fuel patterns inputText = (Returned tm, patterns') ->
  rawAbsolutisms search fuel hook inputText = Returned abs ->
  rawInversions search fuel hook inputText = Returned inv ->
  analyzeText search fuel patterns hook inputText
  = (Returned
       (AnalysisResult.mk
          (renderHighlights (escapeHtml inputText) (collectedHighlights tm abs inv))
          (Stats.mk (size (distinctLowercase (collectedTexts tm abs inv)))
             (length tm) (length abs) (length inv))),
     patterns').
Proof.
  intros Hne Ht Ha Hi. unfold analyzeText, analysisBody. rewrite Hne, Ht. simpl.
  rewrite (addNlpDetections_returned _ _ _ _ _ abs inv Ha Hi). simpl.
  rewrite fold_addInversion, fold_addAbsolutism, fold_addTension. simpl.
  unfold collectedHighlights, collectedTexts.
  rewrite !distinctLowercase_app, <- !app_assoc.
  rewrite (left_id_L ∅ (∪)), <- (assoc_L (∪)). reflexivity.
Qed.

(** C3. On every run whose detections return, [total] is the number of
    distinct lower-case surface texts among all spans the three detectors
    produced, before any overlap filtering; [tension], [absolutism] and
    [inversion] are the raw lengths of the three detector outputs; and so
    [total <= tension + absolutism + inversion]. *)
Theorem analyzeText_counts (search : RegexEngine) (fuel : nat)
    (patterns patterns' : list RegExp.t) (hook : UseNLP.t) (inputText : string)
    (tm : list TensionMatch.t) (abs inv : list Detection.t) :
  Js.truthy (Js.trim inputText) = true ->
  findTensionPhrases search fuel patterns inputText = (Returned tm, patterns') ->
  rawAbsolutisms search fuel hook inputText = Returned abs ->
  rawInversions search fuel hook inputText = Returned inv ->
  exists r,
    analyzeText search fuel patterns hook inputText = (Returned r, patterns')
    /\ Stats.total (AnalysisResult.stats r)
       = size (distinctLowercase (collectedTexts tm abs inv))
    /\ Stats.tension (AnalysisResult.stats r) = length tm
    /\ Stats.absolutism (AnalysisResult.stats r) = length abs
    /\ Stats.inversion (AnalysisResult.stats r) = length inv
    /\ Stats.total (AnalysisResult.stats r)
       <= Stats.tension (AnalysisResult.stats r)
          + Stats.absolutism (AnalysisResult.stats r)
          + Stats.inversion (AnalysisResult.stats r).
Proof.
  intros Hne Ht Ha Hi. eexists. split.
  - by apply (analyzeText_returned _ _ _ _ _ _ tm abs inv).
  - simpl. split_and!; try reflexivity.
    etrans; [apply distinctLowercase_size|].
    unfold collectedTexts. rewrite !length_app, !length_map. lia.
Qed.

(** ** The [exec] loops *)

Lemma setLastIndex_same (re : RegExp.t) :
  RegExp.lastIndex re = 0 -> setLastIndex re 0 = re.
Proof. destruct re as [s f i]. simpl. by intros ->. Qed.

Lemma isGlobal_setLastIndex (re : RegExp.t) (i : nat) :
  isGlobal (setLastIndex re i) = isGlobal re.
Proof. reflexivity. Qed.

Lemma usesLastIndex_setLastIndex (re : RegExp.t) (i : nat) :
  usesLastIndex (setLastIndex re i) = usesLastIndex re.
Proof. reflexivity. Qed.


Lemma Progressive_setLastIndex (search : RegexEngine) (re : RegExp.t) (i : nat) :
  Progressive search re -> Progressive search (setLastIndex re i).
Proof. intros [Hg Hm]. split; [done|]. simpl. exact Hm. Qed.

(** After a call that finds nothing, an expression with [g] or [y] is back at
    0 and any other expression is as before; a call that finds something
    keeps source and flags. *)
Lemma exec_None (search : RegexEngine) (re re' : RegExp.t) (text : string) :
  exec search re text = (None, re') ->
  re' = if usesLastIndex re then setLastIndex re 0 else re.
Proof.
  unfold exec. destruct (usesLastIndex re).
  - destruct (String.length text <? RegExp.lastIndex re); [by intros [= <-]|].
    destruct (search _ _ _ _) as [[index m]|]; [|by intros [= <-]].
    destruct (isSticky re && negb (index =? RegExp.lastIndex re));
      [by intros [= <-]|done].
  - by intros [= _ <-].
Qed.

Lemma exec_Some (search : RegexEngine) (re re' : RegExp.t) (text : string)
    (index : nat) (m : string) :
  exec search re text = (Some (index, m), re') ->
  re' = if usesLastIndex re then setLastIndex re (index + String.length m) else re.
Proof.
  unfold exec. destruct (usesLastIndex re).
  - destruct (String.length text <? RegExp.lastIndex re); [done|].
    destruct (search _ _ _ _) as [[index' m']|]; [|done].
    destruct (isSticky re && negb (index' =? RegExp.lastIndex re)); [done|].
    by intros [= <- <- <-].
  - by intros [= _ <-].
Qed.

Section Loops.
Context {B : Type} (search : RegexEngine) (make : nat -> string -> B).

(** A loop never throws, and if it ends the pattern object is reset. *)
Lemma whileExec_outcome (fuel : nat) (re : RegExp.t) (text : string)
    (arr : list B) :
  match whileExec search fuel re text make arr with
  | (Returned arr', re') =>
      re' = (if usesLastIndex re then setLastIndex re 0 else re)
      /\ arr `prefix_of` arr'
  | (Thrown _, _) => False
  | (OutOfFuel, _) => True
  end.
Proof.
  revert re arr. induction fuel as [|fuel IH]; intros re arr; simpl; [done|].
  destruct (exec search re text) as [[[index m]|] re1] eqn:E.
  - apply exec_Some in E. specialize (IH re1 (arr ++ [make index m])).
    destruct (whileExec search fuel re1 text make (arr ++ [make index m]))
      as [[arr'|e|] re2]; [|done|done].
    destruct IH as [-> Hp]. split.
    + subst re1. destruct (usesLastIndex re) eqn:G; [|by rewrite G].
      by rewrite usesLastIndex_setLastIndex, G.
    + etrans; [|exact Hp]. by apply prefix_app_r.
  - apply exec_None in E. by split.
Qed.

Lemma forEachPattern_outcome (fuel : nat) (patterns : list RegExp.t)
    (text : string) (arr : list B) :
  match forEachPattern search fuel patterns text make arr with
  | (Returned arr', patterns') =>
      patterns' = map (fun re => if usesLastIndex re then setLastIndex re 0 else re) patterns
      /\ arr `prefix_of` arr'
  | (Thrown _, _) => False
  | (OutOfFuel, _) => True
  end.
Proof.
  revert arr. induction patterns as [|re rest IH]; intros arr; simpl; [done|].
  pose proof (whileExec_outcome fuel re text arr) as Hw.
  destruct (whileExec search fuel re text make arr) as [[arr1|e|] re1]; [|done|done].
  destruct Hw as [-> Hp1]. specialize (IH arr1).
  destruct (forEachPattern search fuel rest text make arr1) as [[arr2|e|] rest2];
    [|done|done].
  destruct IH as [-> Hp2]. split; [done|by etrans].
Qed.

Lemma forEachPattern_fresh (fuel : nat) (patterns patterns' : list RegExp.t)
    (text : string) (arr arr' : list B) :
  Forall (fun re => RegExp.lastIndex re = 0) patterns ->
  forEachPattern search fuel patterns text make arr = (Returned arr', patterns') ->
  patterns' = patterns.
Proof.
  intros Hz E. pose proof (forEachPattern_outcome fuel patterns text arr) as Ho.
  rewrite E in Ho. destruct Ho as [-> _]. clear E.
  induction Hz as [|re rest Hre _ IH]; simpl; [done|].
  f_equal; [|done]. destruct (usesLastIndex re); [by apply setLastIndex_same|done].
Qed.



End Loops.

Lemma eachSentence_outcome (search : RegexEngine) (fuel : nat)
    (patterns : list RegExp.t) (sentences : list Sentence.t)
    (arr : list Detection.t) :
  match eachSentence search fuel patterns sentences arr with
  | Returned arr' => arr `prefix_of` arr'
  | Thrown _ => False
  | OutOfFuel => True
  end.
Proof.
  revert arr. induction sentences as [|s rest IH]; intros arr; simpl; [done|].
  match goal with |- context [forEachPattern ?a ?b ?c ?d ?e ?f] =>
    pose proof (forEachPattern_outcome a e b c d f) as Hf;
    destruct (forEachPattern a b c d e f) as [[arr1|e1|] ps] end; simpl; [|done|done].
  destruct Hf as [_ Hp1]. specialize (IH arr1).
  destruct (eachSentence search fuel patterns rest arr1); [|done|done].
  by etrans.
Qed.


(** ** The two NLP detectors *)

Section Detectors.
Context (search : RegexEngine) (fuel : nat).

(** Without a tokenizer both detectors return the empty array at once; the
    engine and the tokenizer are not consulted. *)
Lemma detectAbsolutismsNLP_null (text : string) :
  detectAbsolutismsNLP search fuel None text = Returned [].
Proof. reflexivity. Qed.

Lemma detectInversionsNLP_null (text : string) :
  detectInversionsNLP search fuel None text = Returned [].
Proof. reflexivity. Qed.

(** A throwing [readDoc] is caught inside the detector. *)
Lemma detectAbsolutismsNLP_caught (n : Nlp.t) (text e : string) :
  Nlp.readDoc n text = inl e ->
  detectAbsolutismsNLP search fuel (Some n) text = Returned [].
Proof. unfold detectAbsolutismsNLP. by intros ->. Qed.

Lemma detectInversionsNLP_caught (n : Nlp.t) (text e : string) :
  Nlp.readDoc n text = inl e ->
  detectInversionsNLP search fuel (Some n) text = Returned [].
Proof. unfold detectInversionsNLP. by intros ->. Qed.

(** What a detector returns on a document starts with the spans of the token
    loop, in token order. *)
Lemma detectAbsolutismsNLP_tokens (n : Nlp.t) (text : string) (doc : Doc.t)
    (abs : list Detection.t) :
  Nlp.readDoc n text = inr doc ->
  detectAbsolutismsNLP search fuel (Some n) text = Returned abs ->
  flat_map tokenAbsolutisms (Doc.tokens doc) `prefix_of` abs.
Proof.
  unfold detectAbsolutismsNLP. intros ->.
  pose proof (eachSentence_outcome search fuel absolutePatterns (Doc.sentences doc)
                (flat_map tokenAbsolutisms (Doc.tokens doc))) as Ho.
  destruct (eachSentence _ _ _ _ _); simpl; [|done|done].
  by intros [= <-].
Qed.

Lemma detectInversionsNLP_tokens (n : Nlp.t) (text : string) (doc : Doc.t)
    (inv : list Detection.t) :
  Nlp.readDoc n text = inr doc ->
  detectInversionsNLP search fuel (Some n) text = Returned inv ->
  flat_map tokenInversions (Doc.tokens doc) `prefix_of` inv.
Proof.
  unfold detectInversionsNLP. intros ->.
  pose proof (eachSentence_outcome search fuel inversionPatterns (Doc.sentences doc)
                (flat_map tokenInversions (Doc.tokens doc))) as Ho.
  destruct (eachSentence _ _ _ _ _); simpl; [|done|done].
  by intros [= <-].
Qed.



End Detectors.





(** ** Markup characters *)




(** ** [analyzeText] as a whole *)

(** A tokenizer that is loaded but throws in [readDoc]: each detector catches
    the error and returns the empty array, and the run goes on with the
    tension matches. *)
Example analyzeText_broken_tokenizer :
  detectAbsolutismsNLP literalEngine 30 (Some brokenNlp) sampleText = Returned []
  /\ detectInversionsNLP literalEngine 30 (Some brokenNlp) sampleText = Returned []
  /\ analyzeText literalEngine 30 samplePatterns (readyHook brokenNlp) sampleText
     = (Returned
          (AnalysisResult.mk
             ("a " +:+ highlighted (tensionHighlight shockingMatch) +:+ " never")
             (Stats.mk 1 1 0 0)),
        samplePatterns).
Proof. split_and!; [reflexivity|reflexivity|by vm_compute]. Qed.

(** A call that returns hands the pattern objects back as it found them. *)
Lemma analyzeText_patterns_restored (search : RegexEngine) (fuel : nat)
    (patterns patterns' : list RegExp.t) (hook : UseNLP.t) (inputText : string)
    (r : AnalysisResult.t) :
  Forall (fun re => RegExp.lastIndex re = 0) patterns ->
  analyzeText search fuel patterns hook inputText = (Returned r, patterns') ->
  patterns' = patterns.
Proof.
  intros Hz. unfold analyzeText.
  destruct (negb (Js.truthy (Js.trim inputText))); [by intros [= _ <-]|].
  unfold analysisBody, findTensionPhrases.
  destruct (forEachPattern _ _ _ _ _ _) as [[tm|e|] ps] eqn:Ef; simpl.
  - intros [= _ <-]. by eapply forEachPattern_fresh.
  - pose proof (forEachPattern_outcome search
                  (fun index m => TensionMatch.mk m index (index + String.length m) tension)
                  fuel patterns inputText []) as Ho.
    by rewrite Ef in Ho.
  - done.
Qed.

(** C7. The only objects a call shares with the next one are the pattern
    objects of [TENSION_PATTERNS], and a call that returns leaves them as it
    found them, with [lastIndex] 0. The same text with the same tokenizer
    state therefore gives the same result again, also after a call on any
    other text in between. *)
Theorem analyzeText_repeatable (search : RegexEngine) (fuel : nat)
    (patterns patterns' : list RegExp.t) (hook : UseNLP.t) (inputText : string)
    (r : AnalysisResult.t) :
  Forall (fun re => RegExp.lastIndex re = 0) patterns ->
  analyzeText search fuel patterns hook inputText = (Returned r, patterns') ->
  patterns' = patterns
  /\ analyzeText search fuel patterns' hook inputText = (Returned r, patterns')
  /\ forall otherText r2 patterns2,
      analyzeText search fuel patterns' hook otherText = (Returned r2, patterns2) ->
      analyzeText search fuel patterns2 hook inputText = (Returned r, patterns').
Proof.
  intros Hz E.
  pose proof (analyzeText_patterns_restored _ _ _ _ _ _ _ Hz E) as ->.
  split_and!; [done|done|].
  intros otherText r2 patterns2 E2.
  by rewrite (analyzeText_patterns_restored _ _ _ _ _ _ _ Hz E2).
Qed.

(** C8. On the input "5 > 3 & true", when no detector produces a span, the
    markup is "5 &gt; 3 &amp; true": it contains [&gt;] and [&amp;], no [<],
    no [>], and no [&] other than the one that opens an entity. *)
Theorem analyzeText_escapes_example (search : RegexEngine) (fuel : nat)
    (patterns patterns' : list RegExp.t) (hook : UseNLP.t) :
  findTensionPhrases search fuel patterns "5 > 3 & true" = (Returned [], patterns') ->
  rawAbsolutisms search fuel hook "5 > 3 & true" = Returned [] ->
  rawInversions search fuel hook "5 > 3 & true" = Returned [] ->
  exists r,
    analyzeText search fuel patterns hook "5 > 3 & true" = (Returned r, patterns')
    /\ AnalysisResult.highlightedText r = "5 &gt; 3 &amp; true"
    /\ occursIn "&gt;" (AnalysisResult.highlightedText r) = true
    /\ occursIn "&amp;" (AnalysisResult.highlightedText r) = true
    /\ hasChar "<"%char (AnalysisResult.highlightedText r) = false
    /\ hasChar ">"%char (AnalysisResult.highlightedText r) = false
    /\ noRawMarkup (AnalysisResult.highlightedText r) = true.
Proof.
  intros Ht Ha Hi. eexists. split.
  - by apply (analyzeText_returned _ _ _ _ _ _ [] [] []).
  - simpl. by vm_compute.
Qed.

(** ** Strings *)

Lemma append_cons (c : ascii) (s t : string) : String c s +:+ t = String c (s +:+ t).
Proof. reflexivity. Qed.
Lemma append_assoc (s t u : string) : (s +:+ t) +:+ u = s +:+ (t +:+ u).
Proof. induction s as [|c s IH]; [done|]. rewrite !append_cons. by f_equal. Qed.
Lemma append_nil_r (s : string) : s +:+ "" = s.
Proof. induction s as [|c s IH]; [done|]. rewrite append_cons. by f_equal. Qed.
Lemma length_append (s t : string) :
  String.length (s +:+ t) = String.length s + String.length t.
Proof. induction s as [|c s IH]; [done|]. rewrite append_cons. simpl. by f_equal. Qed.

Lemma length_substringTo_min (s : string) (n : nat) :
  String.length (Js.substringTo s n) = Nat.min n (String.length s).
Proof.
  revert s. induction n as [|n IH]; intros [|c s]; simpl; try done.
  by rewrite IH.
Qed.

Lemma length_substringTo (s : string) (n : nat) :
  n <= String.length s -> String.length (Js.substringTo s n) = n.
Proof. rewrite length_substringTo_min. lia. Qed.

Lemma substringFrom_0 (s : string) : Js.substringFrom s 0 = s.
Proof. by destruct s. Qed.

Lemma substringTo_app (s t : string) (n : nat) :
  n <= String.length s -> Js.substringTo (s +:+ t) n = Js.substringTo s n.
Proof.
  revert s. induction n as [|n IH]; intros [|c s]; simpl; try done; try lia.
  - by destruct t.
  - intros H. rewrite IH; [done|lia].
Qed.

Lemma substringFrom_app (s t : string) (n : nat) :
  n <= String.length s ->
  Js.substringFrom (s +:+ t) n = Js.substringFrom s n +:+ t.
Proof.
  revert s. induction n as [|n IH]; intros [|c s]; simpl; try done; try lia.
  - by destruct t.
  - intros H. apply IH. lia.
Qed.

Lemma substringTo_substringTo (s : string) (n m : nat) :
  m <= n -> Js.substringTo (Js.substringTo s n) m = Js.substringTo s m.
Proof.
  revert s n. induction m as [|m IH]; intros [|c s] [|n]; simpl; try done; try lia.
  intros H. rewrite IH; [done|lia].
Qed.

Lemma substringTo_0 (s : string) : Js.substringTo s 0 = "".
Proof. by destruct s. Qed.

Lemma substringFrom_substringTo (s : string) (n b : nat) :
  Js.substringFrom (Js.substringTo s n) b = substring s b n.
Proof.
  unfold substring. revert s n.
  induction b as [|b IH]; intros s n.
  - by rewrite !substringFrom_0, Nat.sub_0_r.
  - destruct s as [|c s], n as [|n]; simpl; try done.
    + by destruct (n - b).
    + by destruct (Js.substringFrom s b).
Qed.

Lemma replaceAll_app (c : ascii) (rep s t : string) :
  Js.replaceAll c rep (s +:+ t) = Js.replaceAll c rep s +:+ Js.replaceAll c rep t.
Proof.
  induction s as [|d s IH]; simpl; [done|].
  destruct (Ascii.eqb d c); rewrite IH; [symmetry; apply append_assoc|done].
Qed.

Lemma length_replaceAll (c : ascii) (rep s : string) :
  1 <= String.length rep -> String.length s <= String.length (Js.replaceAll c rep s).
Proof.
  intros Hrep. induction s as [|d s IH]; simpl; [done|].
  destruct (Ascii.eqb d c); simpl; [rewrite length_append|]; lia.
Qed.

Lemma length_escapeHtml (text : string) :
  String.length text <= String.length (escapeHtml text).
Proof.
  unfold escapeHtml.
  etrans; [|apply length_replaceAll; simpl; lia].
  etrans; [|apply length_replaceAll; simpl; lia].
  apply length_replaceAll. simpl. lia.
Qed.

(** ** Splicing from the end *)

Lemma insertBy_desc_last (x : Highlight.t) (l : list Highlight.t) :
  Forall (fun y => Highlight.start x < Highlight.start y) l ->
  Js.insertBy byStartDesc x l = l ++ [x].
Proof.
  induction 1 as [|y l Hy _ IH]; simpl; [done|].
  unfold byStartDesc at 1.
  destruct (Z.leb_spec (Z.of_nat (Highlight.start y) - Z.of_nat (Highlight.start x)) 0);
    [lia|]. by rewrite IH.
Qed.

(** Sorting strictly ascending starts in descending order reverses the array. *)
Lemma sort_desc_reverse (l : list Highlight.t) :
  StronglySorted startsBefore l -> Js.sort byStartDesc l = rev l.
Proof.
  induction 1 as [|x l Hl IH Hx]; simpl; [done|].
  rewrite IH. apply insertBy_desc_last.
  apply Forall_forall. intros y Hy. rewrite Forall_forall in Hx.
  apply Hx. apply list_elem_of_In, in_rev. by apply list_elem_of_In.
Qed.

Lemma fold_left_applyHighlight_rev (processedText : string) (kept : list Highlight.t) :
  fold_left applyHighlight (rev kept) processedText = spliceAll processedText kept.
Proof.
  unfold spliceAll. induction kept as [|h kept IH]; simpl; [done|].
  by rewrite fold_left_app, IH.
Qed.

Section Splice.
Context (T : string).

(** Splicing spans that start at [b] or later leaves the first [b] code
    units of the text alone. *)
Lemma spliceAll_prefix (rest : list Highlight.t) (b : nat) :
  Forall (fun h => b <= Highlight.start h) rest ->
  b <= String.length T ->
  Js.substringTo (spliceAll T rest) b = Js.substringTo T b.
Proof.
  intros Hrest Hb. induction Hrest as [|k rest Hk _ IH]; simpl; [done|].
  unfold applyHighlight.
  assert (b <= String.length (spliceAll T rest)) as Hlen.
  { pose proof (f_equal String.length IH) as Hl.
    rewrite !length_substringTo_min in Hl. lia. }
  rewrite substringTo_app.
  - by rewrite substringTo_substringTo.
  - rewrite length_substringTo_min. lia.
Qed.

Lemma spliceAll_length (rest : list Highlight.t) (b : nat) :
  Forall (fun h => b <= Highlight.start h) rest ->
  b <= String.length T ->
  b <= String.length (spliceAll T rest).
Proof.
  intros Hrest Hb.
  pose proof (f_equal String.length (spliceAll_prefix rest b Hrest Hb)) as Hl.
  rewrite !length_substringTo_min in Hl. lia.
Qed.

(** From [b] on, the spliced text is the left-to-right pass over [T]. *)
Lemma spliceAll_suffix (rest : list Highlight.t) (b : nat) :
  StronglySorted endsBefore rest ->
  Forall (fun h => b <= Highlight.start h
                   /\ Highlight.start h <= Highlight.end_ h
                   /\ Highlight.end_ h <= String.length T) rest ->
  Js.substringFrom (spliceAll T rest) b = spliceLeftToRight T b rest.
Proof.
  intros Hs. revert b. induction Hs as [|k rest Hs IH Hk]; intros b Hall; simpl.
  - done.
  - apply Forall_cons in Hall as [(Hb & Hse & He) Hall].
    assert (Forall (fun h => Highlight.end_ k <= Highlight.start h) rest) as Hafter.
    { exact Hk. }
    assert (Forall (fun h => Highlight.start k <= Highlight.start h) rest) as Hafter'.
    { eapply Forall_impl; [exact Hafter|]. simpl. intros; lia. }
    unfold applyHighlight.
    rewrite (spliceAll_prefix rest (Highlight.start k)) by (done || lia).
    rewrite substringFrom_app by (rewrite length_substringTo; lia).
    rewrite substringFrom_substringTo.
    f_equal. f_equal. apply IH.
    rewrite Forall_forall in Hall, Hafter. apply Forall_forall.
    intros h Hh. destruct (Hall h Hh) as (_ & ? & ?). split_and!; [|done|done].
    by apply Hafter.
Qed.

End Splice.

(** The kept spans of well-formed spans start strictly one after the other. *)
Lemma keptHighlights_WellFormed (inputText : string) (highlights : list Highlight.t) :
  Forall (WellFormedSpan inputText) highlights ->
  Forall (WellFormedSpan inputText) (keptHighlights highlights).
Proof.
  rewrite !Forall_forall. intros H h Hh. apply H.
  apply removeOverlaps_subset in Hh. by apply sort_elem_of in Hh.
Qed.

Lemma WellFormedSpan_lt (inputText : string) (h : Highlight.t) :
  WellFormedSpan inputText h -> Highlight.start h < Highlight.end_ h.
Proof.
  intros (Hne & -> & _). destruct (Highlight.text h); [done|simpl; lia].
Qed.

Lemma ordered_startsBefore (inputText : string) (l : list Highlight.t) :
  Forall (WellFormedSpan inputText) l ->
  StronglySorted endsBefore l -> StronglySorted startsBefore l.
Proof.
  intros Hwf Hs. induction Hs as [|k rest Hs IH Hk]; [constructor|].
  apply Forall_cons in Hwf as [Hwk Hwf]. constructor; [by apply IH|].
  eapply Forall_impl; [exact Hk|]. unfold endsBefore, startsBefore.
  intros h Hh. pose proof (WellFormedSpan_lt _ _ Hwk). lia.
Qed.

(** The markup of well-formed spans is the left-to-right pass over the
    escaped text, by the offsets of the kept spans. *)
Lemma renderHighlights_left_to_right (inputText : string)
    (highlights : list Highlight.t) :
  Forall (WellFormedSpan inputText) highlights ->
  renderHighlights (escapeHtml inputText) highlights
  = newlinesToBr
      (spliceLeftToRight (escapeHtml inputText) 0 (keptHighlights highlights)).
Proof.
  intros Hwf. unfold renderHighlights, newlinesToBr. f_equal.
  fold (keptHighlights highlights).
  pose proof (keptHighlights_WellFormed _ _ Hwf) as Hk.
  pose proof (keptHighlights_ordered highlights) as Ho.
  rewrite (sort_desc_reverse _ (ordered_startsBefore _ _ Hk Ho)).
  rewrite fold_left_applyHighlight_rev.
  rewrite <- (substringFrom_0 (spliceAll _ _)).
  apply spliceAll_suffix; [done|].
  eapply Forall_impl; [exact Hk|]. intros h Hh.
  pose proof (WellFormedSpan_lt _ _ Hh). destruct Hh as (_ & _ & Hend).
  pose proof (length_escapeHtml inputText). split_and!; lia.
Qed.

(** ** The rendered wrappers *)

Lemma highlighted_openingTag (h : Highlight.t) :
  highlighted h = openingTag h +:+ Highlight.text h +:+ "</span>".
Proof. unfold highlighted, openingTag. by rewrite !append_assoc. Qed.

Lemma spliceLeftToRight_contains (T : string) (position : nat)
    (kept : list Highlight.t) (h : Highlight.t) :
  h ∈ kept ->
  exists pre post, spliceLeftToRight T position kept = pre +:+ highlighted h +:+ post.
Proof.
  intros Hh. revert position.
  induction kept as [|k rest IH]; intros position; [by apply elem_of_nil in Hh|].
  apply elem_of_cons in Hh as [->|Hh]; simpl.
  - by eexists _, _.
  - destruct (IH Hh (Highlight.end_ k)) as (pre & post & ->).
    exists (substring T position (Highlight.start k) +:+ highlighted k +:+ pre), post.
    by rewrite !append_assoc.
Qed.

Lemma isMarkupChar_not_newline (c : ascii) :
  isMarkupChar c = true -> Ascii.eqb c (ascii_of_nat 10) = false.
Proof.
  unfold isMarkupChar. rewrite !orb_true_iff, !Ascii.eqb_eq.
  by intros [[->| ->]| ->].
Qed.

(** C9. The matched text of every kept span stands in the markup as it is,
    between its opening and its closing tag (only newlines become [<br>], as
    everywhere in the markup): an [&], [<] or [>] of the matched text is in
    the output unescaped. *)
Theorem analyzeText_span_text_verbatim (search : RegexEngine) (fuel : nat)
    (patterns patterns' : list RegExp.t) (hook : UseNLP.t) (inputText : string)
    (tm : list TensionMatch.t) (abs inv : list Detection.t) (h : Highlight.t) :
  Js.truthy (Js.trim inputText) = true ->
  findTensionPhrases search fuel patterns inputText = (Returned tm, patterns') ->
  rawAbsolutisms search fuel hook inputText = Returned abs ->
  rawInversions search fuel hook inputText = Returned inv ->
  Forall (WellFormedSpan inputText) (collectedHighlights tm abs inv) ->
  h ∈ keptHighlights (collectedHighlights tm abs inv) ->
  exists r pre post,
    analyzeText search fuel patterns hook inputText = (Returned r, patterns')
    /\ AnalysisResult.highlightedText r
       = pre +:+ newlinesToBr (highlighted h) +:+ post
    /\ forall a c b,
        Highlight.text h = a +:+ String c b -> isMarkupChar c = true ->
        AnalysisResult.highlightedText r
        = pre +:+ (newlinesToBr (openingTag h +:+ a)
                   +:+ String c (newlinesToBr (b +:+ "</span>"))) +:+ post.
Proof.
  intros Hblank Ht Ha Hi Hwf Hh.
  destruct (spliceLeftToRight_contains (escapeHtml inputText) 0 _ h Hh)
    as (pre & post & Hsplice).
  exists (AnalysisResult.mk
            (renderHighlights (escapeHtml inputText) (collectedHighlights tm abs inv))
            (Stats.mk (size (distinctLowercase (collectedTexts tm abs inv)))
               (length tm) (length abs) (length inv))),
    (newlinesToBr pre), (newlinesToBr post).
  assert (renderHighlights (escapeHtml inputText) (collectedHighlights tm abs inv)
          = newlinesToBr pre +:+ newlinesToBr (highlighted h) +:+ newlinesToBr post)
    as Hr.
  { rewrite (renderHighlights_left_to_right _ _ Hwf), Hsplice.
    unfold newlinesToBr. by rewrite !replaceAll_app. }
  split_and!.
  - by apply analyzeText_returned.
  - exact Hr.
  - intros a c b Htext Hc. simpl. rewrite Hr. do 2 f_equal.
    rewrite highlighted_openingTag, Htext. unfold newlinesToBr.
    rewrite (append_assoc a), append_cons, <- (append_assoc (openingTag h)).
    rewrite (replaceAll_app _ _ (openingTag h +:+ a)). f_equal.
    simpl. by rewrite (isMarkupChar_not_newline c Hc).
Qed.

(** ** Text without markup characters *)

Lemma replaceAll_absent (c : ascii) (rep s : string) :
  hasChar c s = false -> Js.replaceAll c rep s = s.
Proof.
  induction s as [|d s IH]; simpl; [done|].
  intros [Hd Hs]%orb_false_iff. rewrite Hd. by rewrite IH.
Qed.

Lemma hasMarkupChar_hasChar (s : string) (c : ascii) :
  hasMarkupChar s = false -> isMarkupChar c = true -> hasChar c s = false.
Proof.
  intros Hs Hc. induction s as [|d s IH]; simpl in *; [done|].
  apply orb_false_iff in Hs as [Hd Hs]. rewrite (IH Hs), orb_false_r.
  destruct (Ascii.eqb_spec d c) as [->|]; [congruence|done].
Qed.

Lemma escapeHtml_plain (s : string) : hasMarkupChar s = false -> escapeHtml s = s.
Proof.
  intros Hs. unfold escapeHtml.
  rewrite (replaceAll_absent "&"%char) by (by apply hasMarkupChar_hasChar).
  rewrite (replaceAll_absent "<"%char) by (by apply hasMarkupChar_hasChar).
  by rewrite (replaceAll_absent ">"%char) by (by apply hasMarkupChar_hasChar).
Qed.

Lemma hasMarkupChar_substringFrom (s : string) (n : nat) :
  hasMarkupChar s = false -> hasMarkupChar (Js.substringFrom s n) = false.
Proof.
  revert s. induction n as [|n IH]; intros [|c s]; simpl; try done.
  intros [_ Hs]%orb_false_iff. by apply IH.
Qed.

Lemma hasMarkupChar_substringTo (s : string) (n : nat) :
  hasMarkupChar s = false -> hasMarkupChar (Js.substringTo s n) = false.
Proof.
  revert s. induction n as [|n IH]; intros [|c s]; simpl; try done.
  intros [Hc Hs]%orb_false_iff. by rewrite Hc, IH.
Qed.

(** On a text without [&], [<] and [>] the offsets are those of the escaped
    text too, and the markup is the rendering the specification describes. *)
Lemma renderHighlights_plain_text (inputText : string)
    (highlights : list Highlight.t) :
  hasMarkupChar inputText = false ->
  Forall (WellFormedSpan inputText) highlights ->
  renderHighlights (escapeHtml inputText) highlights
  = expectedMarkup inputText (keptHighlights highlights).
Proof.
  intros Hplain Hwf. rewrite (renderHighlights_left_to_right _ _ Hwf).
  unfold expectedMarkup, newlinesToBr. f_equal.
  rewrite (escapeHtml_plain _ Hplain).
  generalize 0 at 1 2. induction (keptHighlights highlights) as [|k rest IH];
    intros position; simpl.
  - by rewrite escapeHtml_plain by (by apply hasMarkupChar_substringFrom).
  - rewrite IH. f_equal. unfold substring.
    rewrite escapeHtml_plain; [done|].
    by apply hasMarkupChar_substringTo, hasMarkupChar_substringFrom.
Qed.

(** C4. The text "a & never" with a ready tokenizer: the one kept span,
    "never" at [4, 9), has no markup character in its text, yet the offsets
    are applied to "a &amp; never" and the wrapper lands inside the entity.
    The markup is not the rendering the specification describes. *)
Theorem escaped_offsets_misplace_wrapper :
  hasMarkupChar (Detection.text neverAbsolutism) = false
  /\ keptHighlights (collectedHighlights [] [neverAbsolutism] [neverNegation])
     = [absolutismHighlight neverAbsolutism]
  /\ analyzeText literalEngine 10 [] (readyHook whitespaceNlp) "a & never"
     = (Returned
          (AnalysisResult.mk
             ("a &a" +:+ highlighted (absolutismHighlight neverAbsolutism) +:+ "ever")
             (Stats.mk 1 0 1 1)),
        [])
  /\ expectedMarkup "a & never" [absolutismHighlight neverAbsolutism]
     = "a &amp; " +:+ highlighted (absolutismHighlight neverAbsolutism)
  /\ "a &a" +:+ highlighted (absolutismHighlight neverAbsolutism) +:+ "ever"
     <> expectedMarkup "a & never" [absolutismHighlight neverAbsolutism].
Proof.
  split_and!; [reflexivity|reflexivity|by vm_compute|reflexivity|by vm_compute].
Qed.

(** ** Spans of one token found by both NLP detectors *)

Lemma length_toLowerCase (s : string) :
  String.length (Js.toLowerCase s) = String.length s.
Proof. induction s as [|c s IH]; simpl; [done|]. by rewrite IH. Qed.

Lemma elem_of_flat_map {A B : Type} (f : A -> list B) (l : list A) (x : A) (y : B) :
  x ∈ l -> y ∈ f x -> y ∈ flat_map f l.
Proof.
  intros Hx Hy. apply list_elem_of_In, in_flat_map. exists x.
  by rewrite <- !list_elem_of_In.
Qed.

Lemma tokenAbsolutisms_lemma (token : Token.t) :
  Js.includes absoluteWords (Js.toLowerCase (Token.lemma token)) = true ->
  Detection.mk (Token.out token) (Token.offset token) "absolute_word"
    ∈ tokenAbsolutisms token.
Proof.
  intros H. unfold tokenAbsolutisms. rewrite H. simpl.
  rewrite elem_of_app. right. by left.
Qed.

Lemma tokenInversions_never (token : Token.t) :
  Js.toLowerCase (Token.lemma token) = "never" ->
  Detection.mk (Token.out token) (Token.offset token) "negation"
    ∈ tokenInversions token.
Proof.
  intros H. unfold tokenInversions. rewrite H. simpl. rewrite orb_true_r.
  rewrite elem_of_app. right. by left.
Qed.

Lemma prefix_elem_of {A : Type} (l1 l2 : list A) (x : A) :
  l1 `prefix_of` l2 -> x ∈ l1 -> x ∈ l2.
Proof. intros [k ->] Hx. rewrite elem_of_app. by left. Qed.

(** Of the kept spans at most one has a given non-empty extent. *)
Lemma ordered_same_span_once (P : Highlight.t -> bool) (s e : nat)
    (l : list Highlight.t) :
  s < e ->
  (forall h, P h = true -> Highlight.start h = s /\ Highlight.end_ h = e) ->
  StronglySorted endsBefore l ->
  length (List.filter P l) <= 1.
Proof.
  intros Hse HP Hs. induction Hs as [|k rest Hs IH Hk]; simpl; [lia|].
  destruct (P k) eqn:Pk; [|done].
  apply HP in Pk as [Hks Hke].
  assert (Forall (fun h => P h = false) rest) as Hnone.
  { eapply Forall_impl; [exact Hk|]. intros h Hh.
    destruct (P h) eqn:Ph; [|done].
    apply HP in Ph as [Hhs Hhe]. unfold endsBefore in Hh. lia. }
  clear -Hnone. induction Hnone as [|h rest' Hh _ IH']; simpl; [lia|].
  by rewrite Hh.
Qed.

(** C10, as the code has it: a token whose lower-case form and whose
    lower-cased lemma are both "never" gives an absolutism span of subtype
    [absolute_word] and an inversion span of subtype [negation] with the same
    start and the same end; each is counted in its own category; and of all
    spans with that start and end at most one is kept and rendered. *)
Theorem never_token_found_twice (search : RegexEngine) (fuel : nat)
    (patterns patterns' : list RegExp.t) (n : Nlp.t) (inputText : string)
    (doc : Doc.t) (token : Token.t)
    (tm : list TensionMatch.t) (abs inv : list Detection.t) :
  Js.truthy (Js.trim inputText) = true ->
  Nlp.readDoc n inputText = inr doc ->
  token ∈ Doc.tokens doc ->
  Js.toLowerCase (Token.out token) = "never" ->
  Js.toLowerCase (Token.lemma token) = "never" ->
  findTensionPhrases search fuel patterns inputText = (Returned tm, patterns') ->
  detectAbsolutismsNLP search fuel (Some n) inputText = Returned abs ->
  detectInversionsNLP search fuel (Some n) inputText = Returned inv ->
  let a := Detection.mk (Token.out token) (Token.offset token) "absolute_word" in
  let i := Detection.mk (Token.out token) (Token.offset token) "negation" in
  a ∈ abs /\ i ∈ inv
  /\ Highlight.start (absolutismHighlight a) = Highlight.start (inversionHighlight i)
  /\ Highlight.end_ (absolutismHighlight a) = Highlight.end_ (inversionHighlight i)
  /\ sameSpan token (absolutismHighlight a) = true
  /\ sameSpan token (inversionHighlight i) = true
  /\ (exists r,
         analyzeText search fuel patterns (readyHook n) inputText
         = (Returned r, patterns')
         /\ Stats.absolutism (AnalysisResult.stats r) = length abs
         /\ Stats.inversion (AnalysisResult.stats r) = length inv
         /\ 1 <= length abs /\ 1 <= length inv)
  /\ length (List.filter (sameSpan token)
               (keptHighlights (collectedHighlights tm abs inv))) <= 1.
Proof.
  intros Hblank Hdoc Htok Hword Hlemma Htm Habs Hinv a i.
  assert (a ∈ abs) as Ha.
  { eapply prefix_elem_of; [by eapply detectAbsolutismsNLP_tokens|].
    eapply elem_of_flat_map; [done|].
    apply tokenAbsolutisms_lemma. by rewrite Hlemma. }
  assert (i ∈ inv) as Hi.
  { eapply prefix_elem_of; [by eapply detectInversionsNLP_tokens|].
    eapply elem_of_flat_map; [done|]. by apply tokenInversions_never. }
  assert (String.length (Token.out token) = 5) as Hlen.
  { by rewrite <- length_toLowerCase, Hword. }
  split_and!; try done.
  - unfold sameSpan. simpl. by rewrite !Nat.eqb_refl.
  - unfold sameSpan. simpl. by rewrite !Nat.eqb_refl.
  - eexists. split.
    { by apply (analyzeText_returned _ _ _ _ _ _ tm abs inv). }
    simpl. split_and!; try reflexivity.
    + destruct abs; [by apply elem_of_nil in Ha|simpl; lia].
    + destruct inv; [by apply elem_of_nil in Hi|simpl; lia].
  - apply (ordered_same_span_once _ (Token.offset token)
             (Token.offset token + String.length (Token.out token))).
    + lia.
    + unfold sameSpan. intros h [H1 H2]%andb_true_iff.
      by apply Nat.eqb_eq in H1, H2.
    + apply keptHighlights_ordered.
Qed.

(** C10, as it is worded, fails: the inversion detector looks at the lemma,
    so a token "never" whose lemma the tokenizer reports as "ever" gives an
    absolutism span and no inversion span. *)
Lemma never_token_other_lemma :
  ~ (forall (search : RegexEngine) (fuel : nat) (n : Nlp.t) (inputText : string)
       (doc : Doc.t) (token : Token.t) (inv : list Detection.t),
        Nlp.readDoc n inputText = inr doc ->
        token ∈ Doc.tokens doc ->
        Js.toLowerCase (Token.out token) = "never" ->
        detectInversionsNLP search fuel (Some n) inputText = Returned inv ->
        Detection.mk (Token.out token) (Token.offset token) "negation" ∈ inv).
Proof.
  intros H.
  specialize (H literalEngine 10 otherLemmaNlp "never"
                (Doc.mk [Token.mk "never" "ever" "RB" 0] [Sentence.mk "never" 0])
                (Token.mk "never" "ever" "RB" 0) []).
  simpl in H. assert (Detection.mk "never" 0 "negation" ∈ @nil Detection.t) as Hin.
  { apply H; [reflexivity|by left|reflexivity|by vm_compute]. }
  by apply elem_of_nil in Hin.
Qed.

(** ** The literal engine is sound and its non-empty sources progressive *)

Lemma startsWith_length (s p : string) :
  Js.startsWith s p = true -> String.length p <= String.length s.
Proof.
  revert s. induction p as [|a p IH]; intros [|b s]; simpl; try done; try lia.
  intros [_ H]%andb_true_iff. apply IH in H. lia.
Qed.

Lemma indexOfFrom_bounds (needle text : string) (from i : nat) :
  indexOfFrom needle text from = Some i ->
  from <= i /\ i + String.length needle <= String.length text.
Proof.
  revert from i. induction text as [|c text IH]; intros from i.
  - destruct from, needle; simpl; try done. intros [= <-]. lia.
  - destruct from as [|from]; cbn [indexOfFrom].
    + destruct (Js.startsWith (String c text) needle) eqn:E.
      * intros [= <-]. apply startsWith_length in E. simpl in *. lia.
      * destruct (indexOfFrom needle text 0) as [j|] eqn:Ej; [|done].
        intros [= <-]. apply IH in Ej. simpl. lia.
    + destruct (indexOfFrom needle text from) as [j|] eqn:Ej; [|done].
      intros [= <-]. apply IH in Ej. simpl. lia.
Qed.

Lemma literalEngine_sound : EngineSound literalEngine.
Proof.
  intros source flags text from index m. unfold literalEngine.
  destruct (indexOfFrom source text from) as [i|] eqn:E; [|done].
  intros [= <- <-]. by apply indexOfFrom_bounds.
Qed.



(** ** Instances *)

Lemma analyzeText_counts_witness :
  exists r,
    analyzeText literalEngine 30 samplePatterns (readyHook whitespaceNlp) sampleText
    = (Returned r, samplePatterns)
    /\ Stats.total (AnalysisResult.stats r)
       = size (distinctLowercase
                 (collectedTexts [shockingMatch] [sampleAbsolutism] [sampleNegation]))
    /\ Stats.tension (AnalysisResult.stats r) = 1
    /\ Stats.absolutism (AnalysisResult.stats r) = 1
    /\ Stats.inversion (AnalysisResult.stats r) = 1
    /\ Stats.total (AnalysisResult.stats r)
       <= Stats.tension (AnalysisResult.stats r)
          + Stats.absolutism (AnalysisResult.stats r)
          + Stats.inversion (AnalysisResult.stats r).
Proof.
  apply (analyzeText_counts literalEngine 30 samplePatterns samplePatterns
           (readyHook whitespaceNlp) sampleText
           [shockingMatch] [sampleAbsolutism] [sampleNegation]);
    reflexivity.
Defined.

Lemma analyzeText_repeatable_witness :
  samplePatterns = samplePatterns
  /\ analyzeText literalEngine 30 samplePatterns (readyHook whitespaceNlp) sampleText
     = (Returned
          (AnalysisResult.mk
             ("a " +:+ highlighted (tensionHighlight shockingMatch)
              +:+ " " +:+ highlighted (absolutismHighlight sampleAbsolutism))
             (Stats.mk 2 1 1 1)),
        samplePatterns)
  /\ forall otherText r2 patterns2,
      analyzeText literalEngine 30 samplePatterns (readyHook whitespaceNlp) otherText
      = (Returned r2, patterns2) ->
      analyzeText literalEngine 30 patterns2 (readyHook whitespaceNlp) sampleText
      = (Returned
           (AnalysisResult.mk
              ("a " +:+ highlighted (tensionHighlight shockingMatch)
               +:+ " " +:+ highlighted (absolutismHighlight sampleAbsolutism))
              (Stats.mk 2 1 1 1)),
         samplePatterns).
Proof.
  apply (analyzeText_repeatable literalEngine 30 samplePatterns samplePatterns
           (readyHook whitespaceNlp) sampleText).
  - repeat constructor.
  - by vm_compute.
Defined.

Lemma analyzeText_escapes_example_witness :
  exists r,
    analyzeText literalEngine 30 samplePatterns loadingHook "5 > 3 & true"
    = (Returned r, samplePatterns)
    /\ AnalysisResult.highlightedText r = "5 &gt; 3 &amp; true"
    /\ occursIn "&gt;" (AnalysisResult.highlightedText r) = true
    /\ occursIn "&amp;" (AnalysisResult.highlightedText r) = true
    /\ hasChar "<"%char (AnalysisResult.highlightedText r) = false
    /\ hasChar ">"%char (AnalysisResult.highlightedText r) = false
    /\ noRawMarkup (AnalysisResult.highlightedText r) = true.
Proof.
  apply (analyzeText_escapes_example literalEngine 30 samplePatterns samplePatterns
           loadingHook);
    reflexivity.
Defined.

Lemma analyzeText_span_text_verbatim_witness :
  exists r pre post,
    analyzeText literalEngine 30 ampersandPatterns loadingHook "big R&D"
    = (Returned r, ampersandPatterns)
    /\ AnalysisResult.highlightedText r
       = pre +:+ newlinesToBr (highlighted (tensionHighlight ampersandMatch)) +:+ post
    /\ forall a c b,
        Highlight.text (tensionHighlight ampersandMatch) = a +:+ String c b ->
        isMarkupChar c = true ->
        AnalysisResult.highlightedText r
        = pre +:+ (newlinesToBr (openingTag (tensionHighlight ampersandMatch) +:+ a)
                   +:+ String c (newlinesToBr (b +:+ "</span>"))) +:+ post.
Proof.
  apply (analyzeText_span_text_verbatim literalEngine 30 ampersandPatterns
           ampersandPatterns loadingHook "big R&D" [ampersandMatch] [] []).
  - reflexivity.
  - reflexivity.
  - reflexivity.
  - reflexivity.
  - constructor; [|constructor]. split; [done|]. split; [reflexivity|simpl; lia].
  - by left.
Defined.

Lemma never_token_found_twice_witness :
  sampleAbsolutism ∈ [sampleAbsolutism] /\ sampleNegation ∈ [sampleNegation]
  /\ Highlight.start (absolutismHighlight sampleAbsolutism)
     = Highlight.start (inversionHighlight sampleNegation)
  /\ Highlight.end_ (absolutismHighlight sampleAbsolutism)
     = Highlight.end_ (inversionHighlight sampleNegation)
  /\ sameSpan sampleToken (absolutismHighlight sampleAbsolutism) = true
  /\ sameSpan sampleToken (inversionHighlight sampleNegation) = true
  /\ (exists r,
         analyzeText literalEngine 30 samplePatterns (readyHook whitespaceNlp) sampleText
         = (Returned r, samplePatterns)
         /\ Stats.absolutism (AnalysisResult.stats r) = length [sampleAbsolutism]
         /\ Stats.inversion (AnalysisResult.stats r) = length [sampleNegation]
         /\ 1 <= length [sampleAbsolutism] /\ 1 <= length [sampleNegation])
  /\ length (List.filter (sameSpan sampleToken)
               (keptHighlights
                  (collectedHighlights [shockingMatch] [sampleAbsolutism] [sampleNegation])))
     <= 1.
Proof.
  apply (never_token_found_twice literalEngine 30 samplePatterns samplePatterns
           whitespaceNlp sampleText sampleDoc sampleToken
           [shockingMatch] [sampleAbsolutism] [sampleNegation]).
  - reflexivity.
  - reflexivity.
  - right. right. by left.
  - reflexivity.
  - reflexivity.
  - reflexivity.
  - reflexivity.
  - reflexivity.
Defined.

(** * Further properties *)

(** ** [escapeHtml] *)

Lemma escapeHtml_nil : escapeHtml "" = "".
Proof. reflexivity. Qed.

Lemma escapeHtml_app (s t : string) :
  escapeHtml (s +:+ t) = escapeHtml s +:+ escapeHtml t.
Proof. unfold escapeHtml. by rewrite !replaceAll_app. Qed.

Lemma escapeHtml_single (c : ascii) : escapeHtml (String c "") = escapeChar c.
Proof.
  unfold escapeHtml, escapeChar. simpl.
  destruct (Ascii.eqb_spec c "&"%char) as [->|Hamp]; [reflexivity|]. simpl.
  destruct (Ascii.eqb_spec c "<"%char) as [->|Hlt]; [reflexivity|]. simpl.
  by destruct (Ascii.eqb_spec c ">"%char) as [->|Hgt].
Qed.

(** The three passes amount to one pass that replaces each code unit. *)
Lemma escapeHtml_cons (c : ascii) (s : string) :
  escapeHtml (String c s) = escapeChar c +:+ escapeHtml s.
Proof.
  change (String c s) with (String c "" +:+ s).
  by rewrite escapeHtml_app, escapeHtml_single.
Qed.

Lemma escapeChar_cases (c : ascii) :
  (c = "&"%char /\ escapeChar c = "&amp;")
  \/ (c = "<"%char /\ escapeChar c = "&lt;")
  \/ (c = ">"%char /\ escapeChar c = "&gt;")
  \/ (isMarkupChar c = false /\ escapeChar c = String c "").
Proof.
  unfold escapeChar, isMarkupChar.
  destruct (Ascii.eqb_spec c "&"%char) as [->|Hamp]; [by left|].
  destruct (Ascii.eqb_spec c "<"%char) as [->|Hlt]; [right; by left|].
  destruct (Ascii.eqb_spec c ">"%char) as [->|Hgt]; [right; right; by left|].
  right. right. by right.
Qed.

Lemma startsWith_nil (s : string) : Js.startsWith s "" = true.
Proof. by destruct s. Qed.

Lemma append_nil_l (s : string) : "" +:+ s = s.
Proof. reflexivity. Qed.

(** Moves a literal prefix out of an append. *)
Ltac push_append := rewrite ?append_cons, ?append_nil_l.

(** X1. Whatever the text, the escaped text has no [<] and no [>], and every
    [&] in it opens one of the entities [&amp;], [&lt;], [&gt;]. *)
Theorem escapeHtml_no_raw_markup (text : string) :
  hasChar "<"%char (escapeHtml text) = false
  /\ hasChar ">"%char (escapeHtml text) = false
  /\ noRawMarkup (escapeHtml text) = true.
Proof.
  induction text as [|c text (IH1 & IH2 & IH3)]; [done|].
  rewrite escapeHtml_cons.
  destruct (escapeChar_cases c) as [[-> ->]|[[-> ->]|[[-> ->]|[Hc ->]]]];
    push_append; simpl; rewrite ?startsWith_nil.
  - by rewrite IH1, IH2, IH3.
  - by rewrite IH1, IH2, IH3.
  - by rewrite IH1, IH2, IH3.
  - unfold isMarkupChar in Hc.
    apply orb_false_iff in Hc as [[Hamp Hlt]%orb_false_iff Hgt].
    by rewrite Hamp, Hlt, Hgt, IH1, IH2, IH3.
Qed.

Lemma length_escapeHtml_markup (s : string) :
  hasMarkupChar s = true -> String.length s < String.length (escapeHtml s).
Proof.
  induction s as [|c s IH]; [done|]. simpl hasMarkupChar.
  rewrite escapeHtml_cons, length_append.
  pose proof (length_escapeHtml s) as Hle.
  destruct (escapeChar_cases c) as [[-> ->]|[[-> ->]|[[-> ->]|[Hc ->]]]];
    simpl; try lia.
  rewrite Hc. simpl. intros Hs. apply IH in Hs. lia.
Qed.

(** X2. Escaping goes through concatenation, and it leaves a text as it is
    exactly when the text has none of [&], [<], [>]. *)
Theorem escapeHtml_concat_and_fixpoints (s t : string) :
  escapeHtml (s +:+ t) = escapeHtml s +:+ escapeHtml t
  /\ (escapeHtml s = s <-> hasMarkupChar s = false).
Proof.
  split; [apply escapeHtml_app|]. split; [|apply escapeHtml_plain].
  intros Hfix. destruct (hasMarkupChar s) eqn:Hs; [|done].
  apply length_escapeHtml_markup in Hs. rewrite Hfix in Hs. lia.
Qed.

(** X3. Escaping loses nothing: two texts with the same escaped text are the
    same text. *)
Theorem escapeHtml_injective (s t : string) :
  escapeHtml s = escapeHtml t -> s = t.
Proof.
  revert t. induction s as [|c s IH]; intros [|d t].
  - done.
  - rewrite escapeHtml_cons.
    destruct (escapeChar_cases d) as [[-> ->]|[[-> ->]|[[-> ->]|[Hd ->]]]];
      push_append; done.
  - rewrite escapeHtml_cons.
    destruct (escapeChar_cases c) as [[-> ->]|[[-> ->]|[[-> ->]|[Hc ->]]]];
      push_append; done.
  - rewrite !escapeHtml_cons.
    destruct (escapeChar_cases c) as [[-> ->]|[[-> ->]|[[-> ->]|[Hc ->]]]];
      destruct (escapeChar_cases d) as [[-> ->]|[[-> ->]|[[-> ->]|[Hd ->]]]];
      push_append; intros Heq; try discriminate Heq;
      try (injection Heq as Heq; by rewrite (IH t Heq));
      try (injection Heq as <- _; discriminate Hd);
      try (injection Heq as -> _; discriminate Hc).
    injection Heq as -> Heq. by rewrite (IH t Heq).
Qed.

Lemma escapeHtml_injective_witness :
  escapeHtml "a<b" = "a&lt;b" /\ "a<b" = "a<b".
Proof.
  split; [reflexivity|]. apply (escapeHtml_injective "a<b" "a<b"). reflexivity.
Defined.

(** ** Blank input *)

Lemma trimStart_allSpaces (s : string) :
  allSpaces s = true -> Js.trimStart s = "".
Proof.
  induction s as [|c s IH]; simpl; [done|].
  intros [Hc Hs]%andb_true_iff. rewrite Hc. by apply IH.
Qed.

Lemma trimEnd_not_space (c : ascii) (s : string) :
  Js.isSpace c = false -> Js.trimEnd (String c s) <> "".
Proof. intros Hc. simpl. rewrite Hc. by destruct (Js.trimEnd s). Qed.

Lemma trimStart_not_allSpaces (s : string) :
  allSpaces s = false ->
  exists c s', Js.trimStart s = String c s' /\ Js.isSpace c = false.
Proof.
  induction s as [|c s IH]; simpl; [done|].
  destruct (Js.isSpace c) eqn:Hc; simpl; [exact IH|].
  intros _. by exists c, s.
Qed.

(** The test [!inputText.trim()] holds exactly for the texts made of white
    space only. *)
Lemma trim_blank (s : string) :
  Js.truthy (Js.trim s) = false <-> allSpaces s = true.
Proof.
  unfold Js.trim. split.
  - intros Ht. destruct (allSpaces s) eqn:Hs; [done|].
    destruct (trimStart_not_allSpaces s Hs) as (c & s' & Heq & Hc).
    rewrite Heq in Ht. pose proof (trimEnd_not_space c s' Hc) as Hne.
    by destruct (Js.trimEnd (String c s')).
  - intros Hs. by rewrite (trimStart_allSpaces s Hs).
Qed.

(** X4. A text of white space only, the empty text included, gets the
    placeholder that asks for text, with all four counts zero; nothing is
    searched, so no fuel is needed and the pattern objects stay as they
    are. *)
Theorem analyzeText_blank (search : RegexEngine) (fuel : nat)
    (patterns : list RegExp.t) (hook : UseNLP.t) (inputText : string) :
  allSpaces inputText = true ->
  analyzeText search fuel patterns hook inputText
  = (Returned emptyInputResult, patterns)
  /\ AnalysisResult.stats emptyInputResult = Stats.mk 0 0 0 0.
Proof.
  intros Hs. unfold analyzeText. apply trim_blank in Hs. by rewrite Hs.
Qed.

Lemma analyzeText_blank_witness :
  analyzeText literalEngine 0 samplePatterns (readyHook whitespaceNlp)
    (String (ascii_of_nat 10) "  ")
  = (Returned emptyInputResult, samplePatterns)
  /\ AnalysisResult.stats emptyInputResult = Stats.mk 0 0 0 0.
Proof.
  apply (analyzeText_blank literalEngine 0 samplePatterns (readyHook whitespaceNlp)).
  reflexivity.
Defined.

(** ** More on the overlap filter *)

Lemma isOverlapping_app (h : Highlight.t) (kept more : list Highlight.t) :
  isOverlapping h kept = true -> isOverlapping h (kept ++ more) = true.
Proof. unfold isOverlapping. rewrite existsb_app. by intros ->. Qed.

Lemma removeOverlaps_sublist (l : list Highlight.t) :
  removeOverlaps l `sublist_of` l.
Proof.
  induction l as [|c l IH] using rev_ind; [done|].
  rewrite removeOverlaps_snoc. unfold keepStep.
  destruct (isOverlapping c (removeOverlaps l)).
  - by apply sublist_inserts_r.
  - by apply sublist_app.
Qed.

(** A span is dropped only for a kept span that overlaps it. *)
Lemma removeOverlaps_maximal (l : list Highlight.t) (h : Highlight.t) :
  h ∈ l ->
  h ∈ removeOverlaps l \/ exists k, k ∈ removeOverlaps l /\ Overlaps k h.
Proof.
  induction l as [|c l IH] using rev_ind; [by intros ?%elem_of_nil|].
  rewrite elem_of_app, removeOverlaps_snoc. unfold keepStep.
  destruct (isOverlapping c (removeOverlaps l)) eqn:E.
  - intros [Hh|Hc%list_elem_of_singleton]; [by apply IH|]. subst h.
    right. by apply isOverlapping_spec.
  - intros [Hh|Hc%list_elem_of_singleton]; [|subst h].
    + destruct (IH Hh) as [Hk|(k & Hk & Ho)].
      * left. apply elem_of_app. by left.
      * right. exists k. split; [|done]. apply elem_of_app. by left.
    + left. apply elem_of_app. right. by left.
Qed.

(** Filtering a second time changes nothing. *)
Lemma removeOverlaps_idempotent (l : list Highlight.t) :
  removeOverlaps (removeOverlaps l) = removeOverlaps l.
Proof.
  induction l as [|c l IH] using rev_ind; [done|].
  rewrite removeOverlaps_snoc. unfold keepStep.
  destruct (isOverlapping c (removeOverlaps l)) eqn:E; [exact IH|].
  rewrite removeOverlaps_snoc, IH. unfold keepStep. by rewrite E.
Qed.

Lemma sort_asc_sorted_id (l : list Highlight.t) :
  StronglySorted startsAscend l -> Js.sort byStartAsc l = l.
Proof.
  induction 1 as [|x l Hl IH Hx]; simpl; [done|]. rewrite IH.
  destruct Hx as [|y l' Hy _]; simpl; [done|].
  unfold byStartAsc, startsAscend in *.
  destruct (Z.leb_spec (Z.of_nat (Highlight.start x) - Z.of_nat (Highlight.start y)) 0);
    [done|lia].
Qed.

Lemma sublist_StronglySorted {A : Type} (R : A -> A -> Prop) (l1 l2 : list A) :
  l1 `sublist_of` l2 -> StronglySorted R l2 -> StronglySorted R l1.
Proof.
  induction 1 as [|x l1 l2 Hsub IH|x l1 l2 Hsub IH]; intros Hs; [done| |].
  - apply StronglySorted_cons in Hs as [Hx Hs]. constructor; [by apply IH|].
    rewrite Forall_forall in Hx. apply Forall_forall. intros y Hy.
    apply Hx. by eapply elem_of_sublist.
  - apply StronglySorted_cons in Hs as [_ Hs]. by apply IH.
Qed.

Lemma keptHighlights_sorted (highlights : list Highlight.t) :
  StronglySorted startsAscend (keptHighlights highlights).
Proof.
  eapply sublist_StronglySorted; [apply removeOverlaps_sublist|].
  apply sort_asc_sorted.
Qed.

(** X5. Every detected span is either kept or overlaps a kept span: nothing
    is dropped without a kept span in its way. *)
Theorem keptHighlights_maximal (highlights : list Highlight.t) (h : Highlight.t) :
  h ∈ highlights ->
  h ∈ keptHighlights highlights
  \/ exists k, k ∈ keptHighlights highlights /\ Overlaps k h.
Proof.
  intros Hh. apply removeOverlaps_maximal. by apply sort_elem_of.
Qed.

Lemma keptHighlights_maximal_witness :
  spanOf 2 8 ∈ keptHighlights [spanOf 0 5; spanOf 2 8; spanOf 10 12]
  \/ exists k, k ∈ keptHighlights [spanOf 0 5; spanOf 2 8; spanOf 10 12]
               /\ Overlaps k (spanOf 2 8).
Proof.
  apply (keptHighlights_maximal [spanOf 0 5; spanOf 2 8; spanOf 10 12] (spanOf 2 8)).
  right. by left.
Defined.

(** X6. If anything is detected, something is kept: the first kept span is
    the first span of the sorted array, and no detected span starts before
    it. *)
Theorem keptHighlights_first (highlights : list Highlight.t) :
  highlights <> [] ->
  exists first rest,
    keptHighlights highlights = first :: rest
    /\ head (Js.sort byStartAsc highlights) = Some first
    /\ first ∈ highlights
    /\ forall h, h ∈ highlights -> Highlight.start first <= Highlight.start h.
Proof.
  intros Hne. unfold keptHighlights.
  pose proof (sort_asc_sorted highlights) as Hs.
  pose proof (sort_perm byStartAsc highlights) as Hp.
  destruct (Js.sort byStartAsc highlights) as [|first sorted] eqn:E.
  { apply Permutation_nil_l in Hp. congruence. }
  pose proof (removeOverlaps_prefix [first] sorted) as [rest Hrest].
  exists first, rest. split_and!; [done|done| |].
  - rewrite <- Hp. by left.
  - intros h Hh. rewrite <- Hp in Hh. apply StronglySorted_cons in Hs as [Hf _].
    apply elem_of_cons in Hh as [->|Hh]; [done|].
    rewrite Forall_forall in Hf. by apply Hf.
Qed.

Lemma keptHighlights_first_witness :
  exists first rest,
    keptHighlights [spanOf 2 8; spanOf 0 5] = first :: rest
    /\ head (Js.sort byStartAsc [spanOf 2 8; spanOf 0 5]) = Some first
    /\ first ∈ [spanOf 2 8; spanOf 0 5]
    /\ forall h, h ∈ [spanOf 2 8; spanOf 0 5] ->
                 Highlight.start first <= Highlight.start h.
Proof. apply (keptHighlights_first [spanOf 2 8; spanOf 0 5]). done. Defined.

(** X7. The kept spans are detected spans, in ascending order of start, and
    resolving them again gives them back: the resolver is idempotent. So the
    number of rendered spans is at most the number of detected ones. *)
Theorem keptHighlights_idempotent (highlights : list Highlight.t) :
  keptHighlights highlights `sublist_of` Js.sort byStartAsc highlights
  /\ StronglySorted startsAscend (keptHighlights highlights)
  /\ keptHighlights (keptHighlights highlights) = keptHighlights highlights
  /\ length (keptHighlights highlights) <= length highlights.
Proof.
  split_and!.
  - apply removeOverlaps_sublist.
  - apply keptHighlights_sorted.
  - unfold keptHighlights at 1.
    rewrite (sort_asc_sorted_id _ (keptHighlights_sorted highlights)).
    apply removeOverlaps_idempotent.
  - etrans; [apply sublist_length, removeOverlaps_sublist|].
    by rewrite (sort_perm byStartAsc highlights).
Qed.

(** ** Spans that start at the same offset *)

(** Once a non-empty span [t] has been looked at, every later span with the
    start of [t] overlaps a kept one. *)
Lemma same_start_blocked (A : list Highlight.t) (t h : Highlight.t) :
  StronglySorted startsAscend (A ++ [t]) ->
  Highlight.start t < Highlight.end_ t ->
  Highlight.start h = Highlight.start t ->
  isOverlapping h (removeOverlaps (A ++ [t])) = true.
Proof.
  intros Hs Ht Hh. rewrite removeOverlaps_snoc. unfold keepStep.
  destruct (isOverlapping t (removeOverlaps A)) eqn:E.
  - apply isOverlapping_spec in E as (k & Hk & Ho).
    apply isOverlapping_spec. exists k. split; [done|].
    assert (startsAscend k t) as Hkt.
    { eapply StronglySorted_app_1_elem_of; [exact Hs| |by left].
      by apply removeOverlaps_subset. }
    unfold startsAscend in Hkt. unfold Overlaps in *. lia.
  - apply isOverlapping_spec. exists t. split.
    + apply elem_of_app. right. by left.
    + unfold Overlaps. lia.
Qed.

Lemma keepStep_fold_blocked (s : nat) (B kept : list Highlight.t) :
  (forall h, Highlight.start h = s -> isOverlapping h kept = true) ->
  exists K, fold_left keepStep B kept = kept ++ K
            /\ Forall (fun h => Highlight.start h <> s) K.
Proof.
  revert kept. induction B as [|c B IH]; intros kept Hblocked; simpl.
  - exists []. by rewrite app_nil_r.
  - unfold keepStep at 2. destruct (isOverlapping c kept) eqn:E.
    + by apply IH.
    + destruct (IH (kept ++ [c])) as (K & -> & HK).
      * intros h Hh. by apply isOverlapping_app, Hblocked.
      * exists (c :: K). rewrite <- app_assoc. split; [done|].
        constructor; [|done]. intros Hc. by rewrite (Hblocked c Hc) in E.
Qed.

Lemma sorted_split_first (L : list Highlight.t) (x : Highlight.t) :
  StronglySorted startsAscend L -> x ∈ L ->
  exists A f B, L = A ++ f :: B
    /\ Forall (fun a => Highlight.start a < Highlight.start x) A
    /\ Highlight.start f = Highlight.start x.
Proof.
  induction 1 as [|y L HL IH Hy]; intros Hx; [by apply elem_of_nil in Hx|].
  destruct (decide (Highlight.start y = Highlight.start x)) as [Heq|Hne].
  - by exists [], y, L.
  - apply elem_of_cons in Hx as [->|Hx]; [done|].
    destruct (IH Hx) as (A & f & B & -> & HA & Hf).
    exists (y :: A), f, B. split_and!; [done| |done].
    constructor; [|done]. rewrite Forall_forall in Hy.
    specialize (Hy x Hx). unfold startsAscend in Hy. lia.
Qed.

Lemma filter_start_below (s : nat) (A : list Highlight.t) :
  Forall (fun a => Highlight.start a < s) A ->
  List.filter (fun h => Highlight.start h =? s) A = [].
Proof.
  induction 1 as [|a A Ha _ IH]; simpl; [done|].
  destruct (Nat.eqb_spec (Highlight.start a) s); [lia|done].
Qed.

(** X8. Where a tension match starts, only a tension span can be kept: with
    non-empty tension matches, a kept span that starts at the start of some
    tension match is itself one of the tension spans, never an absolutism or
    inversion span of the same start. *)
Theorem tension_wins_equal_start (tm : list TensionMatch.t)
    (abs inv : list Detection.t) (m : TensionMatch.t) (h : Highlight.t) :
  Forall (fun m => TensionMatch.start m < TensionMatch.end_ m) tm ->
  m ∈ tm ->
  h ∈ keptHighlights (collectedHighlights tm abs inv) ->
  Highlight.start h = TensionMatch.start m ->
  h ∈ map tensionHighlight tm.
Proof.
  intros Hne Hm Hh Hstart. set (hs := collectedHighlights tm abs inv) in *.
  set (s := TensionMatch.start m) in *.
  pose proof (sort_asc_sorted hs) as Hsorted.
  assert (tensionHighlight m ∈ Js.sort byStartAsc hs) as Hin.
  { apply sort_elem_of. unfold hs, collectedHighlights.
    apply elem_of_app. left. apply list_elem_of_In, in_map. by apply list_elem_of_In. }
  destruct (sorted_split_first _ _ Hsorted Hin) as (A & f & B & HL & HA & Hf).
  change (Highlight.start (tensionHighlight m)) with s in HA, Hf.
  (* the first span that starts at [s] is a tension span *)
  assert (f ∈ map tensionHighlight tm) as Hftm.
  { pose proof (sort_asc_stable s hs) as Hst. rewrite HL in Hst.
    rewrite List.filter_app, (filter_start_below s A HA) in Hst. simpl in Hst.
    rewrite Hf, Nat.eqb_refl in Hst.
    unfold hs, collectedHighlights in Hst. rewrite List.filter_app in Hst.
    assert (tensionHighlight m
            ∈ List.filter (fun h => Highlight.start h =? s) (map tensionHighlight tm))
      as Hmf.
    { apply list_elem_of_In, filter_In. split.
      - apply in_map. by apply list_elem_of_In.
      - apply Nat.eqb_refl. }
    destruct (List.filter _ (map tensionHighlight tm)) as [|g gs] eqn:Eg;
      [by apply elem_of_nil in Hmf|].
    simpl in Hst. injection Hst as -> _.
    assert (g ∈ List.filter (fun h => Highlight.start h =? s) (map tensionHighlight tm))
      as Hg by (rewrite Eg; by left).
    apply list_elem_of_In, filter_In in Hg as [Hg _]. by apply list_elem_of_In. }
  assert (Highlight.start f < Highlight.end_ f) as Hfne.
  { apply list_elem_of_In, in_map_iff in Hftm as (m' & <- & Hm').
    rewrite Forall_forall in Hne. apply Hne. by apply list_elem_of_In. }
  (* the spans kept after [f] do not start at [s] *)
  unfold keptHighlights in Hh. rewrite HL in Hh, Hsorted.
  rewrite (cons_middle f A B), app_assoc in Hh, Hsorted.
  unfold removeOverlaps in Hh. rewrite fold_left_app in Hh.
  fold (removeOverlaps (A ++ [f])) in Hh.
  destruct (keepStep_fold_blocked s B (removeOverlaps (A ++ [f]))) as (K & HK & HKs).
  { intros h' Hh'. apply same_start_blocked; [|done|congruence].
    by apply StronglySorted_app_1_l in Hsorted. }
  rewrite HK in Hh. apply elem_of_app in Hh as [Hh|Hh].
  - apply removeOverlaps_subset, elem_of_app in Hh as [Hh|Hh].
    + rewrite Forall_forall in HA. specialize (HA h Hh). lia.
    + apply list_elem_of_singleton in Hh. by subst h.
  - rewrite Forall_forall in HKs. by specialize (HKs h Hh).
Qed.

(** ** What the [exec] loops rely on *)

Section Divergence.
Context {B : Type} (search : RegexEngine) (make : nat -> string -> B).

Lemma whileExec_not_global (fuel : nat) (re : RegExp.t) (text : string)
    (index : nat) (m : string) (arr : list B) :
  usesLastIndex re = false ->
  search (RegExp.source re) (RegExp.flags re) text 0 = Some (index, m) ->
  whileExec search fuel re text make arr = (OutOfFuel, re).
Proof.
  intros Hg Hs. revert arr. induction fuel as [|fuel IH]; intros arr; simpl; [done|].
  unfold exec. rewrite Hg, Hs. apply IH.
Qed.

Lemma whileExec_empty_match (fuel : nat) (re : RegExp.t) (text : string)
    (arr : list B) :
  isGlobal re = true ->
  RegExp.lastIndex re <= String.length text ->
  search (RegExp.source re) (RegExp.flags re) text (RegExp.lastIndex re)
  = Some (RegExp.lastIndex re, "") ->
  whileExec search fuel re text make arr = (OutOfFuel, re).
Proof.
  intros Hg Hl Hs. revert arr. induction fuel as [|fuel IH]; intros arr; simpl; [done|].
  unfold exec, usesLastIndex. rewrite Hg. simpl.
  destruct (Nat.ltb_spec (String.length text) (RegExp.lastIndex re)); [lia|].
  rewrite Hs, Nat.eqb_refl, andb_false_r. simpl String.length. rewrite Nat.add_0_r.
  assert (setLastIndex re (RegExp.lastIndex re) = re) as -> by (by destruct re).
  apply IH.
Qed.

(** If one loop never ends, the [forEach] never ends. *)
Lemma forEachPattern_stuck (fuel : nat) (before after : list RegExp.t)
    (re : RegExp.t) (text : string) (arr : list B) :
  (forall fuel' arr', whileExec search fuel' re text make arr' = (OutOfFuel, re)) ->
  fst (forEachPattern search fuel (before ++ re :: after) text make arr) = OutOfFuel.
Proof.
  intros Hstuck. revert arr. induction before as [|p before IH]; intros arr; simpl.
  - by rewrite Hstuck.
  - pose proof (whileExec_outcome search make fuel p text arr) as Ho.
    destruct (whileExec search fuel p text make arr) as [[arr1|e|] p1]; [|done|done].
    specialize (IH arr1).
    by destruct (forEachPattern search fuel (before ++ re :: after) text make arr1).
Qed.

End Divergence.

Lemma analyzeText_stuck (search : RegexEngine) (fuel : nat)
    (patterns : list RegExp.t) (hook : UseNLP.t) (inputText : string) :
  Js.truthy (Js.trim inputText) = true ->
  fst (findTensionPhrases search fuel patterns inputText) = OutOfFuel ->
  fst (analyzeText search fuel patterns hook inputText) = OutOfFuel.
Proof.
  intros Hblank Hf. unfold analyzeText, analysisBody. rewrite Hblank. simpl.
  destruct (findTensionPhrases search fuel patterns inputText) as [found ps].
  simpl in Hf. by subst found.
Qed.


(** X10. A global rule that matches the empty string at the start of the
    text leaves [lastIndex] where it is: the loop does not end either. *)
Theorem rule_matching_empty_never_ends (search : RegexEngine) (fuel : nat)
    (before after : list RegExp.t) (re : RegExp.t) (hook : UseNLP.t)
    (inputText : string) :
  Js.truthy (Js.trim inputText) = true ->
  isGlobal re = true ->
  RegExp.lastIndex re = 0 ->
  search (RegExp.source re) (RegExp.flags re) inputText 0 = Some (0, "") ->
  fst (findTensionPhrases search fuel (before ++ re :: after) inputText) = OutOfFuel
  /\ fst (analyzeText search fuel (before ++ re :: after) hook inputText) = OutOfFuel.
Proof.
  intros Hblank Hg Hl Hs.
  assert (fst (findTensionPhrases search fuel (before ++ re :: after) inputText)
          = OutOfFuel) as Hf.
  { apply forEachPattern_stuck. intros fuel' arr'.
    apply whileExec_empty_match; [done|lia|by rewrite Hl]. }
  split; [done|]. by apply analyzeText_stuck.
Qed.

(** ** What [findTensionPhrases] returns *)

Section Invariant.
Context {B : Type} (search : RegexEngine) (make : nat -> string -> B)
  (text : string) (P : B -> Prop).
Context (Hmake : forall source flags from index m,
            search source flags text from = Some (index, m) -> P (make index m)).

Lemma exec_result (re re' : RegExp.t) (index : nat) (m : string) :
  exec search re text = (Some (index, m), re') ->
  exists from, search (RegExp.source re) (RegExp.flags re) text from = Some (index, m)
               /\ (usesLastIndex re = true -> from = RegExp.lastIndex re).
Proof using Type.
  unfold exec. destruct (usesLastIndex re).
  - destruct (String.length text <? RegExp.lastIndex re); [done|].
    destruct (search _ _ _ _) as [[i m']|] eqn:E; [|done].
    destruct (isSticky re && negb (i =? RegExp.lastIndex re)); [done|].
    intros [= <- <- _]. by exists (RegExp.lastIndex re).
  - intros [= E _]. by exists 0.
Qed.

Lemma whileExec_Forall (fuel : nat) (re re' : RegExp.t) (arr arr' : list B) :
  whileExec search fuel re text make arr = (Returned arr', re') ->
  Forall P arr -> Forall P arr'.
Proof using Hmake.
  revert re arr. induction fuel as [|fuel IH]; intros re arr; simpl; [done|].
  destruct (exec search re text) as [[[index m]|] re1] eqn:E.
  - intros Hw Harr. apply (IH _ _ Hw). apply Forall_app. split; [done|].
    constructor; [|done]. apply exec_result in E as (from & E & _).
    by eapply Hmake.
  - by intros [= <- _].
Qed.

Lemma forEachPattern_Forall (fuel : nat) (patterns patterns' : list RegExp.t)
    (arr arr' : list B) :
  forEachPattern search fuel patterns text make arr = (Returned arr', patterns') ->
  Forall P arr -> Forall P arr'.
Proof using Hmake.
  revert arr patterns'. induction patterns as [|re rest IH]; intros arr patterns'; simpl.
  - by intros [= <- _].
  - destruct (whileExec search fuel re text make arr) as [[arr1|e|] re1] eqn:Ew;
      [|done|done].
    destruct (forEachPattern search fuel rest text make arr1) as [o rest'] eqn:Ef.
    intros [= -> _] Harr. eapply IH; [exact Ef|].
    by eapply whileExec_Forall.
Qed.

End Invariant.

(** X11. With a sound engine every match [findTensionPhrases] returns is
    tagged [tension], ends at [start + length] of its text, and lies inside
    the input. *)
Theorem findTensionPhrases_inside (search : RegexEngine) (fuel : nat)
    (patterns patterns' : list RegExp.t) (inputText : string)
    (tm : list TensionMatch.t) :
  EngineSound search ->
  findTensionPhrases search fuel patterns inputText = (Returned tm, patterns') ->
  Forall (fun m => TensionMatch.type m = tension
                   /\ TensionMatch.end_ m
                      = TensionMatch.start m + String.length (TensionMatch.text m)
                   /\ TensionMatch.end_ m <= String.length inputText) tm.
Proof.
  intros Hsound Hf. unfold findTensionPhrases in Hf.
  eapply forEachPattern_Forall; [|exact Hf|constructor].
  intros source flags from index m Hs. simpl.
  apply Hsound in Hs as [_ Hin]. by split_and!.
Qed.

(** The matches of one loop of a rule that uses [lastIndex]: each starts
    where the one before ended, or later. *)
Lemma whileExec_chain_global (search : RegexEngine) (fuel : nat) (re re' : RegExp.t)
    (text : string) (arr arr' : list TensionMatch.t) :
  EngineSound search ->
  usesLastIndex re = true ->
  whileExec search fuel re text
    (fun index m => TensionMatch.mk m index (index + String.length m) tension) arr
  = (Returned arr', re') ->
  StronglySorted matchEndsBefore arr ->
  Forall (fun a => TensionMatch.end_ a <= RegExp.lastIndex re) arr ->
  StronglySorted matchEndsBefore arr'.
Proof.
  intros Hsound. revert re arr.
  induction fuel as [|fuel IH]; intros re arr Hg; simpl; [done|].
  unfold exec. rewrite Hg.
  destruct (String.length text <? RegExp.lastIndex re); [by intros [= <- _]|].
  destruct (search _ _ _ _) as [[index m]|] eqn:E; [|by intros [= <- _]].
  destruct (isSticky re && negb (index =? RegExp.lastIndex re)); [by intros [= <- _]|].
  apply Hsound in E as [Hle _]. intros Hw Hs Hl.
  apply (IH (setLastIndex re (index + String.length m)) _ Hg Hw).
  - apply StronglySorted_app. split_and!; [|done|repeat constructor].
    intros a b Ha Hb. apply list_elem_of_singleton in Hb as ->.
    rewrite Forall_forall in Hl. specialize (Hl a Ha).
    unfold matchEndsBefore. simpl. lia.
  - simpl. apply Forall_app. split.
    + eapply Forall_impl; [exact Hl|]. simpl. intros a Ha. lia.
    + constructor; [|done]. simpl. lia.
Qed.

Lemma whileExec_not_global_returned (search : RegexEngine) (fuel : nat)
    (re re' : RegExp.t) (text : string) (arr arr' : list TensionMatch.t) :
  usesLastIndex re = false ->
  whileExec search fuel re text
    (fun index m => TensionMatch.mk m index (index + String.length m) tension) arr
  = (Returned arr', re') ->
  arr' = arr.
Proof.
  intros Hg. destruct fuel as [|fuel]; simpl; [done|].
  destruct (exec search re text) as [[[index m]|] re1] eqn:E.
  - unfold exec in E. rewrite Hg in E. injection E as E <-.
    by rewrite (whileExec_not_global search _ fuel re text index m _ Hg E).
  - by intros [= <- _].
Qed.

(** X12. The occurrences one rule finds come in text order and do not
    overlap each other: in the result of a one-rule library each match starts
    at or after the end of the match before it. *)
Theorem one_rule_matches_disjoint (search : RegexEngine) (fuel : nat)
    (re : RegExp.t) (patterns' : list RegExp.t) (inputText : string)
    (tm : list TensionMatch.t) :
  EngineSound search ->
  findTensionPhrases search fuel [re] inputText = (Returned tm, patterns') ->
  StronglySorted matchEndsBefore tm.
Proof.
  intros Hsound. unfold findTensionPhrases. simpl.
  destruct (whileExec search fuel re inputText (fun index m => TensionMatch.mk m index (index + String.length m) tension) []) as [[arr|e|] re1] eqn:Ew;
    [|done|done].
  intros [= <- _]. destruct (usesLastIndex re) eqn:Hg.
  - by apply (whileExec_chain_global search fuel re re1 inputText [] arr Hsound Hg Ew);
      constructor.
  - rewrite (whileExec_not_global_returned _ _ _ _ _ _ _ Hg Ew). constructor.
Qed.

(** ** A tokenizer that throws *)

(** X13. A tokenizer whose [readDoc] throws on the text is as good as none:
    both detectors swallow the error, and [analyzeText] gives what it gives
    while the tokenizer is still loading. *)
Theorem analyzeText_tokenizer_throws (search : RegexEngine) (fuel : nat)
    (patterns : list RegExp.t) (hook : UseNLP.t) (n : Nlp.t)
    (inputText e : string) :
  UseNLP.nlp hook = Some n ->
  Nlp.readDoc n inputText = inl e ->
  detectAbsolutismsNLP search fuel (Some n) inputText = Returned []
  /\ detectInversionsNLP search fuel (Some n) inputText = Returned []
  /\ analyzeText search fuel patterns hook inputText
     = analyzeText search fuel patterns loadingHook inputText.
Proof.
  intros Hn He.
  pose proof (detectAbsolutismsNLP_caught search fuel n inputText e He) as Ha.
  pose proof (detectInversionsNLP_caught search fuel n inputText e He) as Hi.
  split_and!; [done|done|].
  assert (forall l, addNlpDetections search fuel hook inputText l
                    = addNlpDetections search fuel loadingHook inputText l) as Hadd.
  { intros l. destruct hook as [nlp loaded err]. simpl in Hn. subst nlp.
    unfold addNlpDetections. cbn [UseNLP.isLoaded UseNLP.nlp loadingHook].
    destruct loaded; [|done]. by rewrite Ha, Hi. }
  unfold analyzeText, analysisBody.
  destruct (negb (Js.truthy (Js.trim inputText))); [done|].
  destruct (findTensionPhrases search fuel patterns inputText) as [[tm|err|] ps];
    [|done|done].
  cbn [mbind Outcome_bind]. by rewrite Hadd.
Qed.

(** ** Where the detections come from *)

Section Provenance.
Context (search : RegexEngine) (fuel : nat) (doc : Doc.t) (Q : Detection.t -> Prop).
Context (Hsound : EngineSound search).
Context (Hphrase : forall d, FromSentence doc d -> Q d).

Lemma eachSentence_provenance (patterns : list RegExp.t)
    (sentences : list Sentence.t) (arr arr' : list Detection.t) :
  sentences ⊆ Doc.sentences doc ->
  eachSentence search fuel patterns sentences arr = Returned arr' ->
  Forall Q arr -> Forall Q arr'.
Proof using Hsound Hphrase.
  revert arr. induction sentences as [|s rest IH]; intros arr Hsub; simpl.
  - by intros [= <-].
  - destruct (forEachPattern search fuel patterns (Sentence.out s) _ arr)
      as [[arr1|err|] ps] eqn:Ef; simpl; [|done|done].
    intros Hrest Harr. apply (IH arr1); [set_solver|done|].
    eapply (forEachPattern_Forall search _ (Sentence.out s) Q); [|exact Ef|done].
    intros source flags from index m Hs. apply Hphrase.
    split; [done|]. exists s. split; [set_solver|].
    apply Hsound in Hs as [_ Hin]. simpl. lia.
Qed.

End Provenance.

Lemma tokenAbsolutisms_provenance (doc : Doc.t) (token : Token.t) (d : Detection.t) :
  token ∈ Doc.tokens doc -> d ∈ tokenAbsolutisms token ->
  FromToken doc ["superlative"; "absolute_word"; "intensifier"] d.
Proof.
  intros Htok Hd. exists token. unfold tokenAbsolutisms in Hd.
  repeat match type of Hd with
         | context [if ?b then _ else _] => destruct b
         end;
    repeat (apply elem_of_app in Hd as [Hd|Hd] || apply elem_of_cons in Hd as [->|Hd]
            || apply elem_of_nil in Hd as []);
    split_and!; try done; set_solver.
Qed.

Lemma tokenInversions_provenance (doc : Doc.t) (token : Token.t) (d : Detection.t) :
  token ∈ Doc.tokens doc -> d ∈ tokenInversions token ->
  FromToken doc ["contraction"; "negation"; "negative_prefix"] d.
Proof.
  intros Htok Hd. exists token. unfold tokenInversions in Hd.
  repeat match type of Hd with
         | context [if ?b then _ else _] => destruct b
         end;
    repeat (apply elem_of_app in Hd as [Hd|Hd] || apply elem_of_cons in Hd as [->|Hd]
            || apply elem_of_nil in Hd as []);
    split_and!; try done; set_solver.
Qed.

Lemma flat_map_Forall {A B : Type} (f : A -> list B) (P : B -> Prop) (l : list A) :
  (forall x y, x ∈ l -> y ∈ f x -> P y) -> Forall P (flat_map f l).
Proof.
  intros H. apply Forall_forall. intros y Hy.
  apply list_elem_of_In, in_flat_map in Hy as (x & Hx & Hy).
  apply (H x); by apply list_elem_of_In.
Qed.

(** X14. Every span [detectAbsolutismsNLP] returns is either the surface text
    of a token at the offset of that token, of subtype superlative,
    absolute_word or intensifier, or a phrase that lies inside one of the
    sentences of the document. *)
Theorem detectAbsolutismsNLP_provenance (search : RegexEngine) (fuel : nat)
    (n : Nlp.t) (text : string) (doc : Doc.t) (abs : list Detection.t) :
  EngineSound search ->
  Nlp.readDoc n text = inr doc ->
  detectAbsolutismsNLP search fuel (Some n) text = Returned abs ->
  Forall (fun d => FromToken doc ["superlative"; "absolute_word"; "intensifier"] d
                   \/ FromSentence doc d) abs.
Proof.
  intros Hsound Hdoc. unfold detectAbsolutismsNLP. rewrite Hdoc.
  destruct (eachSentence _ _ _ _ _) as [arr|err|] eqn:E; simpl;
    [|by intros [= <-]|done].
  intros [= <-].
  eapply (eachSentence_provenance search fuel doc _ Hsound);
    [|by intros x Hx|exact E|].
  - intros d Hd. by right.
  - apply flat_map_Forall. intros token d Htok Hd. left.
    by apply (tokenAbsolutisms_provenance doc token).
Qed.

(** X15. The same for [detectInversionsNLP], with the subtypes contraction,
    negation and negative_prefix. *)
Theorem detectInversionsNLP_provenance (search : RegexEngine) (fuel : nat)
    (n : Nlp.t) (text : string) (doc : Doc.t) (inv : list Detection.t) :
  EngineSound search ->
  Nlp.readDoc n text = inr doc ->
  detectInversionsNLP search fuel (Some n) text = Returned inv ->
  Forall (fun d => FromToken doc ["contraction"; "negation"; "negative_prefix"] d
                   \/ FromSentence doc d) inv.
Proof.
  intros Hsound Hdoc. unfold detectInversionsNLP. rewrite Hdoc.
  destruct (eachSentence _ _ _ _ _) as [arr|err|] eqn:E; simpl;
    [|by intros [= <-]|done].
  intros [= <-].
  eapply (eachSentence_provenance search fuel doc _ Hsound);
    [|by intros x Hx|exact E|].
  - intros d Hd. by right.
  - apply flat_map_Forall. intros token d Htok Hd. left.
    by apply (tokenInversions_provenance doc token).
Qed.

(** ** When the offsets of the raw text fit the escaped text *)

Lemma escapeHtml_plain_cons (c : ascii) (s : string) :
  isMarkupChar c = false -> escapeHtml (String c s) = String c (escapeHtml s).
Proof.
  intros Hc. rewrite escapeHtml_cons.
  destruct (escapeChar_cases c) as [[-> _]|[[-> _]|[[-> _]|[_ ->]]]]; done.
Qed.

Lemma substringFrom_escapeHtml (T : string) (p : nat) :
  hasMarkupChar (Js.substringTo T p) = false ->
  Js.substringFrom (escapeHtml T) p = escapeHtml (Js.substringFrom T p).
Proof.
  revert T. induction p as [|p IH]; intros [|c T]; simpl; try done.
  - by rewrite substringFrom_0.
  - intros [Hc HT]%orb_false_iff. rewrite (escapeHtml_plain_cons c T Hc). simpl.
    by apply IH.
Qed.

Lemma substringTo_escapeHtml (T : string) (p : nat) :
  hasMarkupChar (Js.substringTo T p) = false ->
  Js.substringTo (escapeHtml T) p = Js.substringTo T p.
Proof.
  revert T. induction p as [|p IH]; intros [|c T]; simpl; try done.
  - by rewrite substringTo_0.
  - intros [Hc HT]%orb_false_iff. rewrite (escapeHtml_plain_cons c T Hc). simpl.
    by rewrite IH.
Qed.

Lemma hasMarkupChar_prefix (T : string) (p E : nat) :
  p <= E -> hasMarkupChar (Js.substringTo T E) = false ->
  hasMarkupChar (Js.substringTo T p) = false.
Proof.
  intros Hp HE. rewrite <- (substringTo_substringTo T E p Hp).
  by apply hasMarkupChar_substringTo.
Qed.

Lemma spliceLeftToRight_plain_prefix (T : string) (E : nat)
    (kept : list Highlight.t) (position : nat) :
  hasMarkupChar (Js.substringTo T E) = false ->
  StronglySorted endsBefore kept ->
  Forall (fun h => position <= Highlight.start h
                   /\ Highlight.start h <= Highlight.end_ h
                   /\ Highlight.end_ h <= E) kept ->
  position <= E ->
  spliceLeftToRight (escapeHtml T) position kept = annotateFrom T position kept.
Proof.
  intros Hplain Hs. revert position.
  induction Hs as [|k rest Hs IH Hk]; intros position Hall Hpos; simpl.
  - apply substringFrom_escapeHtml. by apply (hasMarkupChar_prefix T position E).
  - apply Forall_cons in Hall as [(Hps & Hse & HeE) Hall].
    assert (hasMarkupChar (substring T position (Highlight.start k)) = false) as Hmid.
    { rewrite <- substringFrom_substringTo. apply hasMarkupChar_substringFrom.
      apply (hasMarkupChar_prefix T _ E); [lia|done]. }
    f_equal.
    + rewrite (escapeHtml_plain _ Hmid). unfold substring in *.
      rewrite substringFrom_escapeHtml
        by (apply (hasMarkupChar_prefix T position E); [lia|done]).
      by apply substringTo_escapeHtml.
    + f_equal. apply IH; [|done].
      rewrite Forall_forall in Hall, Hk. apply Forall_forall. intros h Hh.
      destruct (Hall h Hh) as (_ & ? & ?). split_and!; [|done|done].
      by apply Hk.
Qed.

(** X16. If none of [&], [<], [>] occurs in the input before the end of the
    last kept span, the offsets fit the escaped text and the markup is the
    rendering the specification describes: escaped text between the spans,
    each kept span wrapped around its matched text. Markup characters after
    the last kept span do no harm. *)
Theorem renderHighlights_correct_up_to (inputText : string)
    (highlights : list Highlight.t) (E : nat) :
  Forall (WellFormedSpan inputText) highlights ->
  Forall (fun h => Highlight.end_ h <= E) (keptHighlights highlights) ->
  hasMarkupChar (Js.substringTo inputText E) = false ->
  renderHighlights (escapeHtml inputText) highlights
  = expectedMarkup inputText (keptHighlights highlights).
Proof.
  intros Hwf HE Hplain. rewrite (renderHighlights_left_to_right _ _ Hwf).
  unfold expectedMarkup, newlinesToBr. f_equal.
  apply (spliceLeftToRight_plain_prefix inputText E); [done| | |lia].
  - apply keptHighlights_ordered.
  - pose proof (keptHighlights_WellFormed _ _ Hwf) as Hk.
    rewrite Forall_forall in Hk, HE. apply Forall_forall. intros h Hh.
    pose proof (WellFormedSpan_lt _ _ (Hk h Hh)). specialize (HE h Hh).
    split_and!; lia.
Qed.

(** ** The hook and the status badge *)

(** X17. In every state [useNLP] goes through, [isLoaded] implies that the
    instance is there and no error is set, so the label reads "NLP Ready"
    exactly when [analyzeText] uses the NLP detectors, and the label and the
    colour of the badge agree. A successful import ends in the ready state;
    a failed one leaves the instance null. *)
Theorem hookStates_consistent (o : ImportOutcome) (hook : UseNLP.t) :
  hook ∈ hookStates o ->
  (UseNLP.isLoaded hook = true ->
   is_Some (UseNLP.nlp hook) /\ UseNLP.error hook = None)
  /\ (nlpStatus hook = "NLP Ready" <-> nlpReady hook = true)
  /\ ((nlpStatus hook = "NLP Ready"
       /\ statusBadgeClass hook = "bg-green-100 text-green-800")
      \/ (nlpStatus hook = "NLP Error"
          /\ statusBadgeClass hook = "bg-red-100 text-red-800")
      \/ (nlpStatus hook = "Loading NLP..."
          /\ statusBadgeClass hook = "bg-yellow-100 text-yellow-800"))
  /\ last (hookStates o)
     = Some (match o with
             | Imported nlpInstance => readyHook nlpInstance
             | ImportFailed err => UseNLP.mk None false (Some err)
             end).
Proof.
  intros Hin. unfold hookStates in *.
  destruct o as [n|err]; simpl in Hin;
    repeat (apply elem_of_cons in Hin as [->|Hin]);
    try (by apply elem_of_nil in Hin);
    (split_and!;
     [ intros Hl; simpl in *; (done || (split; [by eexists|done]))
     | by vm_compute
     | vm_compute; tauto
     | reflexivity ]).
Qed.

(** ** The order of the splices *)

(** X18. Splicing from the last kept span to the first, each time into the
    text as the splices before left it, gives the same markup as one pass
    from left to right over the escaped text: no splice moves the text that
    a later splice addresses. *)
Theorem renderHighlights_order_free (inputText : string)
    (highlights : list Highlight.t) :
  Forall (WellFormedSpan inputText) highlights ->
  renderHighlights (escapeHtml inputText) highlights
  = newlinesToBr
      (spliceLeftToRight (escapeHtml inputText) 0 (keptHighlights highlights))
  /\ Js.sort byStartDesc (keptHighlights highlights) = rev (keptHighlights highlights).
Proof.
  intros Hwf. split; [by apply renderHighlights_left_to_right|].
  apply sort_desc_reverse. eapply ordered_startsBefore.
  - by apply keptHighlights_WellFormed.
  - apply keptHighlights_ordered.
Qed.

(** ** Instances of the further properties *)

Lemma tension_wins_equal_start_witness :
  tensionHighlight neverAtStart ∈ map tensionHighlight [neverAtStart].
Proof.
  apply (tension_wins_equal_start [neverAtStart]
           [Detection.mk "never" 0 "absolute_word"] [Detection.mk "never" 0 "negation"]
           neverAtStart (tensionHighlight neverAtStart)).
  - repeat constructor.
  - by left.
  - by left.
  - reflexivity.
Defined.


Lemma rule_matching_empty_never_ends_witness :
  fst (findTensionPhrases literalEngine 7 emptyPatterns sampleText) = OutOfFuel
  /\ fst (analyzeText literalEngine 7 emptyPatterns loadingHook sampleText)
     = OutOfFuel.
Proof.
  apply (rule_matching_empty_never_ends literalEngine 7 [] [] (RegExp.mk "" "g" 0)
           loadingHook sampleText);
    reflexivity.
Defined.

Lemma findTensionPhrases_inside_witness :
  Forall (fun m => TensionMatch.type m = tension
                   /\ TensionMatch.end_ m
                      = TensionMatch.start m + String.length (TensionMatch.text m)
                   /\ TensionMatch.end_ m <= String.length sampleText)
    [shockingMatch].
Proof.
  apply (findTensionPhrases_inside literalEngine 30 samplePatterns samplePatterns
           sampleText [shockingMatch]).
  - exact literalEngine_sound.
  - reflexivity.
Defined.

Lemma one_rule_matches_disjoint_witness :
  StronglySorted matchEndsBefore
    [TensionMatch.mk "ab" 0 2 tension; TensionMatch.mk "ab" 2 4 tension].
Proof.
  apply (one_rule_matches_disjoint literalEngine 30 (RegExp.mk "ab" "g" 0)
           [RegExp.mk "ab" "g" 0] "abab").
  - exact literalEngine_sound.
  - reflexivity.
Defined.

Lemma analyzeText_tokenizer_throws_witness :
  detectAbsolutismsNLP literalEngine 30 (Some brokenNlp) sampleText = Returned []
  /\ detectInversionsNLP literalEngine 30 (Some brokenNlp) sampleText = Returned []
  /\ analyzeText literalEngine 30 samplePatterns (readyHook brokenNlp) sampleText
     = analyzeText literalEngine 30 samplePatterns loadingHook sampleText.
Proof.
  apply (analyzeText_tokenizer_throws literalEngine 30 samplePatterns
           (readyHook brokenNlp) brokenNlp sampleText "readDoc failed");
    reflexivity.
Defined.

Lemma detectAbsolutismsNLP_provenance_witness :
  Forall (fun d => FromToken sampleDoc ["superlative"; "absolute_word"; "intensifier"] d
                   \/ FromSentence sampleDoc d) [sampleAbsolutism].
Proof.
  apply (detectAbsolutismsNLP_provenance literalEngine 30 whitespaceNlp sampleText).
  - exact literalEngine_sound.
  - reflexivity.
  - reflexivity.
Defined.

Lemma detectInversionsNLP_provenance_witness :
  Forall (fun d => FromToken sampleDoc ["contraction"; "negation"; "negative_prefix"] d
                   \/ FromSentence sampleDoc d) [sampleNegation].
Proof.
  apply (detectInversionsNLP_provenance literalEngine 30 whitespaceNlp sampleText).
  - exact literalEngine_sound.
  - reflexivity.
  - reflexivity.
Defined.

Lemma renderHighlights_correct_up_to_witness :
  renderHighlights (escapeHtml lateMarkupText) [tensionHighlight lateMarkupMatch]
  = expectedMarkup lateMarkupText (keptHighlights [tensionHighlight lateMarkupMatch]).
Proof.
  apply (renderHighlights_correct_up_to lateMarkupText
           [tensionHighlight lateMarkupMatch] 11).
  - constructor; [|constructor]. split; [done|]. split; [reflexivity|simpl; lia].
  - constructor; [simpl; lia|constructor].
  - reflexivity.
Defined.

Lemma hookStates_consistent_witness :
  (UseNLP.isLoaded (readyHook whitespaceNlp) = true ->
   is_Some (UseNLP.nlp (readyHook whitespaceNlp))
   /\ UseNLP.error (readyHook whitespaceNlp) = None)
  /\ (nlpStatus (readyHook whitespaceNlp) = "NLP Ready"
      <-> nlpReady (readyHook whitespaceNlp) = true)
  /\ ((nlpStatus (readyHook whitespaceNlp) = "NLP Ready"
       /\ statusBadgeClass (readyHook whitespaceNlp) = "bg-green-100 text-green-800")
      \/ (nlpStatus (readyHook whitespaceNlp) = "NLP Error"
          /\ statusBadgeClass (readyHook whitespaceNlp) = "bg-red-100 text-red-800")
      \/ (nlpStatus (readyHook whitespaceNlp) = "Loading NLP..."
          /\ statusBadgeClass (readyHook whitespaceNlp) = "bg-yellow-100 text-yellow-800"))
  /\ last (hookStates (Imported whitespaceNlp)) = Some (readyHook whitespaceNlp).
Proof.
  apply (hookStates_consistent (Imported whitespaceNlp) (readyHook whitespaceNlp)).
  right. right. by left.
Defined.

Lemma renderHighlights_order_free_witness :
  renderHighlights (escapeHtml lateMarkupText) [tensionHighlight lateMarkupMatch]
  = newlinesToBr
      (spliceLeftToRight (escapeHtml lateMarkupText) 0
         (keptHighlights [tensionHighlight lateMarkupMatch]))
  /\ Js.sort byStartDesc (keptHighlights [tensionHighlight lateMarkupMatch])
     = rev (keptHighlights [tensionHighlight lateMarkupMatch]).
Proof.
  apply (renderHighlights_order_free lateMarkupText [tensionHighlight lateMarkupMatch]).
  constructor; [|constructor]. split; [done|]. split; [reflexivity|simpl; lia].
Defined.

(** ** Termination, errors and the degraded run *)







(** A rule with the [y] flag alone matches at [lastIndex] only: on a text
    that begins with the phrase the loop finds it once and ends. *)
Example sticky_rule_ends :
  findTensionPhrases literalEngine 5 [RegExp.mk "shocking" "y" 0] "shocking news"
  = (Returned [TensionMatch.mk "shocking" 0 8 tension], [RegExp.mk "shocking" "y" 0]).
Proof. reflexivity. Qed.


